(** * Polarion license manager: the license configuration reconciliation engine

    A shallow embedding of [polarion_license_manager.py]: the configuration
    parser, the per-user license table, the query, the mutation engine
    (add / remove / switch with slot allocation), the serializer and the
    identifier normaliser, followed by the properties proved about them.

    Modelling conventions.
    - A Python [str] is a [string]; a character is read as the code point
      0..255 (Latin-1).  Character classes ([str.isspace], [str.isalnum],
      the regular expression classes [\w] and [\d]) and [str.lower] are the
      Python ones on that range.  [str.upper] is the Python one except on
      the three code points whose upper case leaves the range (181, 223,
      255), which are left unchanged.
    - A Python [int] is a [Z].
    - A Python [dict] is an association list in insertion order with pairwise
      distinct keys ([dict_set] keeps the position of a key that is already
      present), because the program iterates over its dictionaries.
    - The manager object is a record threaded through the operations; an
      operation returns the new manager and its boolean result. *)

From Stdlib Require Import String Ascii List ZArith NArith Bool Lia.
From Stdlib Require Import Decimal DecimalString DecimalZ.
Import ListNotations.

Local Open Scope list_scope.
Local Open Scope string_scope.

(* ===================================================================== *)
(** ** Characters and strings, as Python treats them *)
(* ===================================================================== *)

Definition code (c : ascii) : N := N_of_ascii c.

Definition in_range (lo hi : N) (c : ascii) : bool :=
  ((lo <=? code c) && (code c <=? hi))%N.

(** [str.isspace] on one character. *)
Definition is_space (c : ascii) : bool :=
  in_range 9 13 c || in_range 28 32 c
  || (code c =? 133)%N || (code c =? 160)%N.

(** The class [\d] of [re]. *)
Definition is_digit (c : ascii) : bool := in_range 48 57 c.

(** [str.isalnum] on one character. *)
Definition is_alnum (c : ascii) : bool :=
  is_digit c || in_range 65 90 c || in_range 97 122 c
  || (code c =? 170)%N || in_range 178 179 c || (code c =? 181)%N
  || in_range 185 186 c || in_range 188 190 c
  || in_range 192 214 c || in_range 216 246 c || in_range 248 255 c.

(** The class [\w] of [re]. *)
Definition is_word (c : ascii) : bool := is_alnum c || (c =? "_")%char.

Definition lower_char (c : ascii) : ascii :=
  if in_range 65 90 c || in_range 192 214 c || in_range 216 222 c
  then ascii_of_N (code c + 32) else c.

Definition upper_char (c : ascii) : ascii :=
  if in_range 97 122 c || in_range 224 246 c || in_range 248 254 c
  then ascii_of_N (code c - 32) else c.

Fixpoint map_str (f : ascii -> ascii) (s : string) : string :=
  match s with
  | EmptyString => EmptyString
  | String c r => String (f c) (map_str f r)
  end.

(** [s.lower()] and [s.upper()]. *)
Definition lower (s : string) : string := map_str lower_char s.
Definition upper (s : string) : string := map_str upper_char s.

(** [s.startswith(p)]. *)
Definition startswith (p s : string) : bool := String.prefix p s.

(** [sub in s]. *)
Fixpoint contains (sub s : string) : bool :=
  String.prefix sub s ||
  match s with
  | EmptyString => false
  | String _ r => contains sub r
  end.

(** [s[n:]]. *)
Fixpoint drop (n : nat) (s : string) : string :=
  match n, s with
  | O, _ => s
  | S _, EmptyString => EmptyString
  | S k, String _ r => drop k r
  end.

(** [s.endswith(suf)]. *)
Definition endswith (suf s : string) : bool :=
  (String.length suf <=? String.length s)%nat
  && (drop (String.length s - String.length suf) s =? suf).

Fixpoint forall_str (p : ascii -> bool) (s : string) : bool :=
  match s with
  | EmptyString => true
  | String c r => p c && forall_str p r
  end.

(** [s.isalnum()]: at least one character, all alphanumeric. *)
Definition isalnum (s : string) : bool :=
  negb (s =? "") && forall_str is_alnum s.

(** [s.lstrip()], [s.rstrip()], [s.strip()]. *)
Fixpoint lstrip (s : string) : string :=
  match s with
  | EmptyString => EmptyString
  | String c r => if is_space c then lstrip r else s
  end.

Fixpoint rstrip (s : string) : string :=
  match s with
  | EmptyString => EmptyString
  | String c r =>
      match rstrip r with
      | EmptyString => if is_space c then EmptyString else String c EmptyString
      | r' => String c r'
      end
  end.

Definition strip (s : string) : string := lstrip (rstrip s).

(** [s.lstrip(ch)] for a one-character argument. *)
Fixpoint lstrip_char (ch : ascii) (s : string) : string :=
  match s with
  | EmptyString => EmptyString
  | String c r => if (c =? ch)%char then lstrip_char ch r else s
  end.

(** [s.split(sep)] for a one-character separator: never the empty list. *)
Fixpoint split (sep : ascii) (s : string) : list string :=
  match s with
  | EmptyString => [EmptyString]
  | String c r =>
      if (c =? sep)%char then EmptyString :: split sep r
      else match split sep r with
           | h :: t => String c h :: t
           | [] => [String c EmptyString]
           end
  end.

(** [s.split()]: the maximal runs of non-whitespace characters. *)
Fixpoint split_ws (s : string) : list string :=
  match s with
  | EmptyString => []
  | String c r =>
      if is_space c then split_ws r
      else match r with
           | EmptyString => [String c EmptyString]
           | String c' _ =>
               if is_space c' then String c EmptyString :: split_ws r
               else match split_ws r with
                    | h :: t => String c h :: t
                    | [] => [String c EmptyString]
                    end
           end
  end.

(** [sep.join(l)]. *)
Definition join (sep : string) (l : list string) : string :=
  String.concat sep l.

(** [s.replace(old, new)] for a non-empty [old]: the occurrences are found
    from the left and do not overlap.  [skip] counts the characters of the
    occurrence being replaced that are still to be passed over. *)
Fixpoint replace_from (old new : string) (skip : nat) (s : string) : string :=
  match s with
  | EmptyString => EmptyString
  | String c r =>
      match skip with
      | S k => replace_from old new k r
      | O =>
          if String.prefix old s
          then new ++ replace_from old new (String.length old - 1) r
          else String c (replace_from old new 0 r)
      end
  end.

Definition replace (old new s : string) : string := replace_from old new 0 s.

(** The longest prefix of [s] whose characters satisfy [p], and the rest. *)
Fixpoint span (p : ascii -> bool) (s : string) : string * string :=
  match s with
  | EmptyString => (EmptyString, EmptyString)
  | String c r =>
      if p c then let (a, b) := span p r in (String c a, b)
      else (EmptyString, s)
  end.

(** [s] cut before its longest suffix of decimal digits. *)
Fixpoint split_trailing_digits (s : string) : string * string :=
  match s with
  | EmptyString => (EmptyString, EmptyString)
  | String c r =>
      let (b, d) := split_trailing_digits r in
      match b with
      | EmptyString =>
          if is_digit c then (EmptyString, String c d)
          else (String c EmptyString, d)
      | _ => (String c b, d)
      end
  end.

(** [str(n)] and [int(s)] for a string of decimal digits. *)
Definition str_of_int (n : Z) : string := NilEmpty.string_of_int (Z.to_int n).

Definition int_of_digits (s : string) : Z :=
  match NilEmpty.uint_of_string s with
  | Some d => Z.of_uint d
  | None => 0%Z
  end.

Definition newline : ascii := ascii_of_nat 10.
Definition NL : string := String newline EmptyString.

(** [re.match(r'(\w+User)(\d+)=(.+)', line)], returning the three groups.

    The match starts at the first character.  [\w+], [User] and [\d+] all
    consume word characters and [=] is not one, so the three together cover
    exactly the longest run of word characters at the start of the line, and
    [=] follows it.  [\d+] ends where that run ends, and the character before
    it is the [r] of [User], so group 2 is the longest digit suffix of the
    run and group 1 is what precedes it: it ends in [User] and has at least
    one more character in front.  [.+] takes the rest of the line up to a line
    feed, and needs one character. *)
Definition match_assignment (line : string) : option (string * string * string) :=
  let (run, rest) := span is_word line in
  let (prefix, digits) := split_trailing_digits run in
  match rest with
  | String "=" tail =>
      let value := fst (span (fun c => negb (c =? newline)%char) tail) in
      if endswith "User" prefix && (5 <=? String.length prefix)%nat
         && negb (digits =? "") && negb (value =? "")
      then Some (prefix, digits, value)
      else None
  | _ => None
  end.

(* ===================================================================== *)
(** ** Dictionaries in insertion order *)
(* ===================================================================== *)

Section Dict.
Context {K V : Type}.
Variable eqb : K -> K -> bool.

(** [d.get(k)] *)
Fixpoint dict_get (k : K) (d : list (K * V)) : option V :=
  match d with
  | [] => None
  | (k', v) :: r => if eqb k' k then Some v else dict_get k r
  end.

(** [k in d] *)
Definition dict_mem (k : K) (d : list (K * V)) : bool :=
  match dict_get k d with Some _ => true | None => false end.

(** [d[k] = v]: a key that is present keeps its position. *)
Fixpoint dict_set (k : K) (v : V) (d : list (K * V)) : list (K * V) :=
  match d with
  | [] => [(k, v)]
  | (k', v') :: r =>
      if eqb k' k then (k', v) :: r else (k', v') :: dict_set k v r
  end.

(** [d[k] = f(d[k])] for a key that is present. *)
Fixpoint dict_update (k : K) (f : V -> V) (d : list (K * V)) : list (K * V) :=
  match d with
  | [] => []
  | (k', v') :: r =>
      if eqb k' k then (k', f v') :: r else (k', v') :: dict_update k f r
  end.
End Dict.

Definition dict_keys {K V : Type} (d : list (K * V)) : list K := map fst d.
Definition dict_values {K V : Type} (d : list (K * V)) : list V := map snd d.

(** Dictionaries keyed by strings. *)
Definition sdict (V : Type) : Type := list (string * V).

(* ===================================================================== *)
(** ** Data model *)
(* ===================================================================== *)

Module User.
Record t : Type := mk { user_id : string; full_name : string; email : string }.
End User.

Record LicenseEntry : Type := mkEntry {
  license_type : string;      (* ALM, QA, Requirements, Pro, Reviewer *)
  assignment_type : string;   (* Named, Concurrent *)
  index : Z;
  user_id : string;
  line_number : Z;
  is_active : bool
}.

Module LicenseChange.
Record t : Type := mk {
  user_id : string;
  user_name : string;
  action : string;            (* add, remove, switch *)
  old_license : option string;
  new_license : option string;
  line_added : option string;
  line_removed : option string
}.

Definition set_action (a : string) (c : t) : t :=
  mk (user_id c) (user_name c) a (old_license c) (new_license c)
     (line_added c) (line_removed c).
End LicenseChange.

(** The state of a [PolarionLicenseManager]. *)
Record Manager : Type := mkManager {
  users : sdict User.t;
  license_entries : list LicenseEntry;
  license_config_text : string;
  changes : list LicenseChange.t
}.

(** The keys of [self.license_categories], in the order of the literal. *)
Definition license_categories : list string :=
  ["ALM"; "QA"; "Requirements"; "Pro"; "Reviewer"].

(** [for category in self.license_categories: if P: ...; break] *)
Definition first_category (P : string -> bool) : option string :=
  find P license_categories.

Definition deactivate (e : LicenseEntry) : LicenseEntry :=
  mkEntry (license_type e) (assignment_type e) (index e) (user_id e)
          (line_number e) false.

(** The four fields of an entry that identify an assignment. *)
Definition quad (e : LicenseEntry) : string * string * Z * string :=
  (license_type e, assignment_type e, index e, user_id e).

Definition active_quads (l : list LicenseEntry) : list (string * string * Z * string) :=
  map quad (filter is_active l).

(* ===================================================================== *)
(** ** Configuration parser: [parse_license_configuration] *)
(* ===================================================================== *)

Definition SECTION_HEADER : string := "# ------------------------------- POLARION".
Definition NAMED_HEADER : string := "# NAMED USERS:".
Definition CONCURRENT_HEADER : string := "# CONCURRENT USERS:".

(** The local variables of the parser that live across lines.
    [category_part] is [None] while the name is not in [locals()]; it is
    assigned on a line whose prefix starts with [named] or [concurrent] and
    is never reset, so a later line can still see it. *)
Record ParseCtx : Type := mkCtx {
  current_category : option string;
  current_assignment_type : option string;
  category_part : option string
}.

Definition ctx0 : ParseCtx := mkCtx None None None.

Definition or_else {A : Type} (a b : option A) : option A :=
  match a with Some _ => a | None => b end.

(** The body of [if match:], lines 499-566: the groups of the match are
    [prefix], [index_str] and [user_id]. *)
Definition parse_assignment (ctx : ParseCtx) (line_num : Z) (active : bool)
    (prefix index_str uid : string) : ParseCtx * option LicenseEntry :=
  if strip uid =? "" then (ctx, None) else
  let '(cat0, atype, part) :=
    if startswith "concurrent" (lower prefix)
    then (None, Some "Concurrent", Some (drop 10 prefix))
    else if startswith "named" (lower prefix)
    then (None, Some "Named", Some (drop 5 prefix))
    else (first_category (fun c => contains (lower c) (lower prefix)),
          Some "Concurrent", category_part ctx) in
  let '(cat1, part1) :=
    match cat0, part with
    | None, Some p =>
        let p' := replace "User" "" p in
        (first_category (fun c => lower c =? lower p'), Some p')
    | _, _ => (cat0, part)
    end in
  let cat2 :=
    or_else cat1 (first_category (fun c => contains (lower c) (lower prefix))) in
  let cat3 := or_else cat2 (current_category ctx) in
  let atype' := or_else atype (current_assignment_type ctx) in
  let ctx' := mkCtx (current_category ctx) (current_assignment_type ctx) part1 in
  match cat3, atype' with
  | Some c, Some a =>
      (ctx', Some (mkEntry c a (int_of_digits index_str) (strip uid) line_num active))
  | _, _ => (ctx', None)
  end.

(** One iteration of the loop over the lines. *)
Definition parse_line (ctx : ParseCtx) (line_num : Z) (raw : string)
    : ParseCtx * option LicenseEntry :=
  let line := strip raw in
  if line =? "" then (ctx, None)
  else if startswith SECTION_HEADER line then
    (mkCtx (or_else (first_category (fun c => contains c line)) (current_category ctx))
           (current_assignment_type ctx) (category_part ctx), None)
  else if startswith NAMED_HEADER line then
    (mkCtx (current_category ctx) (Some "Named") (category_part ctx), None)
  else if startswith CONCURRENT_HEADER line then
    (mkCtx (current_category ctx) (Some "Concurrent") (category_part ctx), None)
  else if contains "=" line then
    let active := negb (startswith "#" line) in
    let line := if active then line else strip (drop 1 line) in
    match match_assignment line with
    | Some (prefix, index_str, uid) =>
        parse_assignment ctx line_num active prefix index_str uid
    | None => (ctx, None)
    end
  else (ctx, None).

(** [for line_num, line in enumerate(lines, 1)] *)
Fixpoint parse_lines (ctx : ParseCtx) (line_num : Z) (lines : list string)
    : list LicenseEntry :=
  match lines with
  | [] => []
  | raw :: rest =>
      let (ctx', r) := parse_line ctx line_num raw in
      match r with
      | Some e => e :: parse_lines ctx' (line_num + 1) rest
      | None => parse_lines ctx' (line_num + 1) rest
      end
  end.

Definition parse_text (config_text : string) : list LicenseEntry :=
  parse_lines ctx0 1 (split newline config_text).

(** [parse_license_configuration]: it always returns [True]. *)
Definition parse_license_configuration (m : Manager) (config_text : string)
    : Manager * bool :=
  (mkManager (users m) (parse_text config_text) config_text (changes m), true).

(* ===================================================================== *)
(** ** License table builder: [build_combined_user_license_table] *)
(* ===================================================================== *)

Definition Table : Type := sdict (list LicenseEntry).

Definition table_get (k : string) (t : Table) : option (list LicenseEntry) :=
  dict_get String.eqb k t.

(** [user_licenses.get(k, [])] *)
Definition table_get_default (k : string) (t : Table) : list LicenseEntry :=
  match table_get k t with Some l => l | None => [] end.

Definition table_init (us : sdict User.t) : Table :=
  fold_left (fun t kv => dict_set String.eqb (fst kv) [] t) us [].

Definition table_add (t : Table) (entry : LicenseEntry) : Table :=
  if is_active entry then
    let user_id_lower := lower (user_id entry) in
    if dict_mem String.eqb user_id_lower t
    then dict_update String.eqb user_id_lower (fun l => (l ++ [entry])%list) t
    else dict_set String.eqb (user_id entry) [entry] t
  else t.

Definition build_table (us : sdict User.t) (entries : list LicenseEntry) : Table :=
  fold_left table_add entries (table_init us).

Definition build_combined_user_license_table (m : Manager) : Table :=
  build_table (users m) (license_entries m).

(* ===================================================================== *)
(** ** Directory lookup: [find_user_by_identifier] *)
(* ===================================================================== *)

Definition find_user_by_identifier (m : Manager) (identifier : string)
    : option User.t :=
  let identifier := lower (strip identifier) in
  match dict_get String.eqb identifier (users m) with
  | Some u => Some u
  | None =>
    let vals := dict_values (users m) in
    match find (fun u => lower (User.email u) =? identifier) vals with
    | Some u => Some u
    | None =>
      match find (fun u => lower (User.full_name u) =? identifier) vals with
      | Some u => Some u
      | None =>
        match filter (fun u => contains identifier (lower (User.full_name u))
                               || contains identifier (lower (User.user_id u)))
                     vals with
        | [u] => Some u
        | _ => None
        end
      end
    end
  end.

(* ===================================================================== *)
(** ** Query: [query_user_licenses] *)
(* ===================================================================== *)

Definition Stats : Type := sdict Z.

(** [stats[key] = stats.get(key, 0) + 1] *)
Definition stats_bump (key : string) (s : Stats) : Stats :=
  dict_set String.eqb key
    (match dict_get String.eqb key s with Some n => n | None => 0 end + 1)%Z s.

(** [f"{entry.assignment_type}{entry.license_type}"] *)
Definition license_key (e : LicenseEntry) : string :=
  assignment_type e ++ license_type e.

Definition count_active (s : Stats) (l : list LicenseEntry) : Stats :=
  fold_left (fun s e => if is_active e then stats_bump (license_key e) s else s) l s.

(** [f"{assignment_type.lower()}{license_type}User{index}={user_id}"] *)
Definition assignment_line (atype ltype : string) (idx : Z) (uid : string) : string :=
  lower atype ++ ltype ++ "User" ++ str_of_int idx ++ "=" ++ uid.

Definition stats_lines (s : Stats) : list string :=
  map (fun kv => fst kv ++ " - " ++ str_of_int (snd kv)) s.

(** One element of the list returned by the query; a key that the
    dictionary does not have is [None]. *)
Record QueryResult : Type := mkResult {
  r_identifier : string;
  r_user : option User.t;
  r_status : string;
  r_licenses : option (list string);
  r_overall_stats : option Stats;
  r_queried_users_stats : option Stats;
  r_message : string;
  r_user_stats_message : option string;
  r_overall_stats_message : option string
}.

Definition query_one (m : Manager) (user_licenses : Table)
    (overall_stats queried_users_stats : Stats) (identifier : string)
    : QueryResult :=
  match find_user_by_identifier m identifier with
  | None =>
      mkResult identifier None "not_found" None None None
        ("User '" ++ identifier ++ "' not found in Polarion system") None None
  | Some user =>
      let user_entries :=
        table_get_default (lower (User.user_id user)) user_licenses in
      match user_entries with
      | [] =>
          mkResult identifier (Some user) "no_license" None None None
            (User.full_name user ++ " - " ++ User.email user
               ++ " - No license assigned") None None
      | _ =>
          let user_license_info :=
            map (fun e => assignment_line (assignment_type e) (license_type e)
                            (index e) (user_id e))
                (filter is_active user_entries) in
          match user_license_info with
          | [] =>
              mkResult identifier (Some user) "no_active_license" None None None
                (User.full_name user ++ " - " ++ User.email user
                   ++ " - No active license assigned") None None
          | _ =>
              mkResult identifier (Some user) "has_license"
                (Some user_license_info) (Some overall_stats)
                (Some queried_users_stats)
                (User.full_name user ++ " - " ++ User.email user ++ " - "
                   ++ join ", " user_license_info)
                (Some (join NL (stats_lines queried_users_stats)))
                (Some (join NL (stats_lines overall_stats)))
          end
      end
  end.

Definition query_user_licenses (m : Manager) (identifiers : list string)
    : list QueryResult :=
  let user_licenses := build_combined_user_license_table m in
  let overall_stats := count_active [] (license_entries m) in
  let queried_users_stats :=
    fold_left
      (fun s identifier =>
         match find_user_by_identifier m identifier with
         | Some user =>
             count_active s
               (table_get_default (lower (User.user_id user)) user_licenses)
         | None => s
         end)
      identifiers [] in
  map (query_one m user_licenses overall_stats queried_users_stats) identifiers.

(** [find_inactive_users_with_licenses] *)
Definition find_inactive_users_with_licenses (m : Manager) : list LicenseEntry :=
  filter (fun e => is_active e
                   && negb (dict_mem String.eqb (lower (user_id e)) (users m)))
         (license_entries m).

(* ===================================================================== *)
(** ** Mutation engine *)
(* ===================================================================== *)

Definition in_partition (ltype atype : string) (e : LicenseEntry) : bool :=
  (license_type e =? ltype) && (assignment_type e =? atype) && is_active e.

(** [max(l)] for a non-empty list of integers. *)
Definition max_list (l : list Z) : Z :=
  match l with
  | [] => 0%Z
  | x :: r => fold_left Z.max r x
  end.

Definition find_available_slot (m : Manager) (ltype atype : string) : Z :=
  let existing_indices :=
    map index (filter (in_partition ltype atype) (license_entries m)) in
  match existing_indices with
  | [] => 1%Z
  | _ => (max_list existing_indices + 1)%Z
  end.

Definition add_user_license (m : Manager) (user : User.t) (ltype atype : string)
    : Manager * bool :=
  let user_licenses := build_combined_user_license_table m in
  let existing_licenses :=
    table_get_default (lower (User.user_id user)) user_licenses in
  match existing_licenses with
  | _ :: _ => (m, false)
  | [] =>
      let new_index := find_available_slot m ltype atype in
      let new_entry := mkEntry ltype atype new_index (User.user_id user) 0 true in
      let change :=
        LicenseChange.mk (User.user_id user) (User.full_name user) "add"
          None (Some (atype ++ " " ++ ltype))
          (Some (assignment_line atype ltype new_index (User.user_id user)))
          None in
      (mkManager (users m) (license_entries m ++ [new_entry])%list
                 (license_config_text m) (changes m ++ [change])%list, true)
  end.

(** The test of the loop that looks for the entry to remove. *)
Definition remove_match (uid ltype atype : string) (e : LicenseEntry) : bool :=
  (lower (user_id e) =? lower uid) && (license_type e =? ltype)
  && (assignment_type e =? atype) && is_active e.

(** [entry_to_remove.is_active = False] on the first entry that matches:
    the entry is an element of [self.license_entries], so the list sees it. *)
Fixpoint deactivate_first (p : LicenseEntry -> bool) (l : list LicenseEntry)
    : list LicenseEntry :=
  match l with
  | [] => []
  | e :: r => if p e then deactivate e :: r else e :: deactivate_first p r
  end.

Definition remove_user_license (m : Manager) (uid ltype atype : string)
    : Manager * bool :=
  match find (remove_match uid ltype atype) (license_entries m) with
  | None => (m, false)
  | Some entry_to_remove =>
      let user_name :=
        match dict_get String.eqb (lower uid) (users m) with
        | Some u => User.full_name u
        | None => uid
        end in
      let change :=
        LicenseChange.mk uid user_name "remove"
          (Some (atype ++ " " ++ ltype)) None None
          (Some (assignment_line atype ltype (index entry_to_remove) uid)) in
      (mkManager (users m)
                 (deactivate_first (remove_match uid ltype atype) (license_entries m))
                 (license_config_text m) (changes m ++ [change])%list, true)
  end.

(** [l[-k].action = 'switch'], for [k] at most the length of [l]. *)
Definition mark_switch (k : nat) (l : list LicenseChange.t) : list LicenseChange.t :=
  let i := (List.length l - k)%nat in
  (firstn i l
   ++ match skipn i l with
      | c :: r => LicenseChange.set_action "switch" c :: r
      | [] => []
      end)%list.

Definition switch_user_license (m : Manager) (user : User.t)
    (old_ltype old_atype new_ltype new_atype : string) : Manager * bool :=
  let (m1, ok1) := remove_user_license m (User.user_id user) old_ltype old_atype in
  if negb ok1 then (m1, false) else
  let (m2, ok2) := add_user_license m1 user new_ltype new_atype in
  if negb ok2 then (m2, false) else
  (mkManager (users m2) (license_entries m2) (license_config_text m2)
     (match changes m2 with
      | [] => []
      | _ => mark_switch 1 (mark_switch 2 (changes m2))
      end), true).

(** [validate_changes]: each message is modelled by the values it is
    formatted from. *)
Inductive ValidationError : Type :=
| MultipleActive (uid : string) (active_entries : list LicenseEntry)
| NonExistentUser (uid : string).

Definition validate_changes (m : Manager) : list ValidationError :=
  (flat_map
    (fun kv =>
       let active_entries := filter is_active (snd kv) in
       if (1 <? List.length active_entries)%nat
       then [MultipleActive (fst kv) active_entries] else [])
    (build_combined_user_license_table m)
  ++ flat_map
       (fun e =>
          if is_active e
             && negb (dict_mem String.eqb (lower (user_id e)) (users m))
          then [NonExistentUser (user_id e)] else [])
       (license_entries m))%list.

(* ===================================================================== *)
(** ** Serializer: [update_license_config_text] *)
(* ===================================================================== *)

(** The order on the sort keys [(license_type, assignment_type, index)]:
    tuples are compared component by component, strings by code points. *)
Definition key_le (a b : LicenseEntry) : bool :=
  match String.compare (license_type a) (license_type b) with
  | Lt => true
  | Gt => false
  | Eq =>
      match String.compare (assignment_type a) (assignment_type b) with
      | Lt => true
      | Gt => false
      | Eq => (index a <=? index b)%Z
      end
  end.

(** [sorted(l, key=...)]: the sort is stable, so an element goes in front of
    the elements of equal key that followed it in [l]. *)
Fixpoint insert_sorted (x : LicenseEntry) (l : list LicenseEntry) : list LicenseEntry :=
  match l with
  | [] => [x]
  | y :: r => if key_le x y then x :: l else y :: insert_sorted x r
  end.

Definition sorted (l : list LicenseEntry) : list LicenseEntry :=
  fold_right insert_sorted [] l.

Definition GroupKey : Type := (string * string)%type.

Definition key_eqb (a b : GroupKey) : bool :=
  (fst a =? fst b) && (snd a =? snd b).

Definition Groups : Type := list (GroupKey * list LicenseEntry).

Definition group_add (g : Groups) (entry : LicenseEntry) : Groups :=
  let key := (license_type entry, assignment_type entry) in
  let g' := if dict_mem key_eqb key g then g else dict_set key_eqb key [] g in
  dict_update key_eqb key (fun l => (l ++ [entry])%list) g'.

Definition group_entries (l : list LicenseEntry) : Groups :=
  fold_left group_add l [].

Definition is_some {A : Type} (o : option A) : bool :=
  match o with Some _ => true | None => false end.

(** The first loop: the lines that are kept.  [cat] and [mode] are
    [current_category] and [current_assignment_type]. *)
Fixpoint keep_lines (cat mode : option string) (lines : list string) : list string :=
  match lines with
  | [] => []
  | line :: rest =>
      let line_stripped := strip line in
      if startswith SECTION_HEADER line_stripped then
        line :: keep_lines (or_else (first_category (fun c => contains c line)) cat)
                           mode rest
      else if startswith NAMED_HEADER line_stripped then
        line :: keep_lines cat (Some "Named") rest
      else if startswith CONCURRENT_HEADER line_stripped then
        line :: keep_lines cat (Some "Concurrent") rest
      else if is_some cat && is_some mode && contains "=" line_stripped
              && is_some (match_assignment (lstrip_char "#" line_stripped))
      then keep_lines cat mode rest
      else line :: keep_lines cat mode rest
  end.

(** The loop that looks for the section of a category: [i] is the position
    of the head of [lines], the last argument is [section_start] ([None] for
    -1).  The result is [section_start] when the loop ends or breaks. *)
Fixpoint find_section (category : string) (lines : list string) (i : nat)
    (section_start : option nat) : option nat :=
  match lines with
  | [] => section_start
  | line :: rest =>
      if contains ("POLARION " ++ category) line
      then find_section category rest (S i) (Some i)
      else if is_some section_start
              && startswith "# -------------------------------" line
      then section_start
      else find_section category rest (S i) section_start
  end.

(** The position of the first line, from position [i] on, that contains
    [marker]. *)
Fixpoint find_marker (marker : string) (lines : list string) (i : nat) : option nat :=
  match lines with
  | [] => None
  | line :: rest =>
      if contains marker line then Some i else find_marker marker rest (S i)
  end.

(** [subsection_start] for a group, or [None] when the section or the
    subsection is not found. *)
Definition find_subsection (new_lines : list string) (key : GroupKey) : option nat :=
  match find_section (fst key) new_lines 0 None with
  | None => None
  | Some section_start =>
      match find_marker ("# " ++ upper (snd key) ++ " USERS:")
                        (skipn section_start new_lines) section_start with
      | None => None
      | Some i => Some (i + 1)%nat
      end
  end.

Definition render_entry (key : GroupKey) (entry : LicenseEntry) : string :=
  if is_active entry
  then assignment_line (snd key) (fst key) (index entry) (user_id entry)
  else "# " ++ assignment_line (snd key) (fst key) (index entry) (user_id entry)
       ++ " (removed)".

(** [new_lines.insert(p, x)] for each line of [block] in turn, [p] moving on
    by one each time. *)
Definition insert_block (p : nat) (block new_lines : list string) : list string :=
  (firstn p new_lines ++ block ++ skipn p new_lines)%list.

(** One iteration of the loop over [grouped_entries.items()]. *)
Definition place_group (new_lines : list string)
    (g : GroupKey * list LicenseEntry) : list string :=
  match find_subsection new_lines (fst g) with
  | Some subsection_start =>
      insert_block subsection_start (map (render_entry (fst g)) (snd g)) new_lines
  | None => new_lines
  end.

Definition serialize (config_text : string) (entries : list LicenseEntry) : string :=
  let lines := split newline config_text in
  let grouped_entries := group_entries (sorted entries) in
  let new_lines := keep_lines None None lines in
  join NL (fold_left place_group grouped_entries new_lines).


(* ===================================================================== *)
(** ** Identifier normaliser: [parse_mixed_identifiers] *)
(* ===================================================================== *)

Record Identifiers : Type := mkIds {
  user_ids : list string;
  full_names : list string;
  emails : list string
}.

(** [[id.strip() for id in normalized_input.split(',') if id.strip()]] *)
Definition identifiers_of (input_text : string) : list string :=
  filter (fun s => negb (s =? ""))
         (map strip (split "," (replace ";" "," input_text))).

Definition looks_like_email (s : string) : bool := contains "@" s && contains "." s.

Definition looks_like_user_id (s : string) : bool :=
  negb (contains " " s)
  && isalnum (replace "-" "" (replace "_" "" (replace "." "" s))).

(** One iteration of the loop that sorts the identifiers into the lists. *)
Definition classify (acc : Identifiers) (identifier : string) : Identifiers :=
  if contains " " identifier && contains "@" identifier then
    let parts := split_ws identifier in
    let potential_emails := filter looks_like_email parts in
    let potential_names := filter (fun p => negb (contains "@" p)) parts in
    match potential_emails, potential_names with
    | _ :: _, _ :: _ =>
        let name := join " " potential_names in
        mkIds (user_ids acc)
              (if strip name =? "" then full_names acc
               else (full_names acc ++ [strip name])%list)
              (emails acc ++ potential_emails)%list
    | _, _ =>
        if looks_like_email identifier
        then mkIds (user_ids acc) (full_names acc) (emails acc ++ [identifier])%list
        else mkIds (user_ids acc) (full_names acc ++ [identifier])%list (emails acc)
    end
  else if looks_like_email identifier then
    mkIds (user_ids acc) (full_names acc) (emails acc ++ [identifier])%list
  else if looks_like_user_id identifier then
    mkIds (user_ids acc ++ [identifier])%list (full_names acc) (emails acc)
  else
    mkIds (user_ids acc) (full_names acc ++ [identifier])%list (emails acc).

Definition parse_mixed_identifiers (input_text : string) : Identifiers :=
  fold_left classify (identifiers_of input_text) (mkIds [] [] []).



#[global] Arguments lower : simpl never.
#[global] Arguments upper : simpl never.
#[global] Arguments strip : simpl never.
#[global] Arguments table_get : simpl never.

(* ===================================================================== *)
(** ** Definitions used in the statements *)
(* ===================================================================== *)

(** The active entries of a user, user ids compared without case. *)
Definition active_entries_of (uid : string) (l : list LicenseEntry) : list LicenseEntry :=
  filter (fun e => is_active e && (lower (user_id e) =? lower uid)) l.

(** The last active entry of [l] whose user id is literally [uid]. *)
Definition last_active_with_id (uid : string) (l : list LicenseEntry) : option LicenseEntry :=
  fold_left (fun acc e => if is_active e && (user_id e =? uid) then Some e else acc)
            l None.

(** An active entry that [remove] accepts for [(uid, ltype, atype)]. *)
Definition active_match (uid ltype atype : string) (e : LicenseEntry) : Prop :=
  lower (user_id e) = lower uid /\ license_type e = ltype
  /\ assignment_type e = atype /\ is_active e = true.

(** The indices of the active entries of a [(category, mode)] partition. *)
Definition active_indices (ltype atype : string) (l : list LicenseEntry) : list Z :=
  map index (filter (in_partition ltype atype) l).


(** What the loop of the table builder maintains for the literal key [uid]
    while the lower-cased [uid] is not a key; [acc] is the last active entry
    with that user id met so far. *)
Definition stale_inv (uid : string) (t : Table) (acc : option LicenseEntry) : Prop :=
  dict_mem String.eqb (lower uid) t = false
  /\ (forall k l e, k <> uid -> table_get k t = Some l -> In e l -> user_id e <> uid)
  /\ match acc with
     | Some x => table_get uid t = Some [x]
     | None => True
     end.


Definition statuses : list string :=
  ["not_found"; "no_license"; "has_license"; "no_active_license"].

(** *** For the round trip through the serializer *)

Definition not_newline (c : ascii) : bool := negb (c =? newline)%char.

(** An uncommented line that has the shape of an assignment. *)
Definition active_candidate (raw : string) : bool :=
  let line := strip raw in
  negb (startswith "#" line) && contains "=" line
  && is_some (match_assignment line).

(** Every uncommented assignment line of the text lies below a section
    header that names a category and below a NAMED USERS or CONCURRENT USERS
    subheader: the first loop of the serializer, which drops exactly the
    assignment lines it meets there, keeps none of them. *)
Definition sectioned (config_text : string) : Prop :=
  Forall (fun raw => active_candidate raw = false)
         (keep_lines None None (split newline config_text)).







(** What holds of every entry that the parser makes. *)
Definition well_formed_entry (e : LicenseEntry) : Prop :=
  In (license_type e) license_categories
  /\ (assignment_type e = "Named" \/ assignment_type e = "Concurrent")
  /\ (0 <= index e)%Z
  /\ lstrip (user_id e) = user_id e
  /\ rstrip (user_id e) = user_id e
  /\ user_id e <> ""
  /\ forall_str not_newline (user_id e) = true.

Definition ctx_ok (ctx : ParseCtx) : Prop :=
  match current_category ctx with
  | Some c => In c license_categories
  | None => True
  end.

(** The prefix of a rendered assignment line. *)
Definition prefix_of (atype ltype : string) : string :=
  lower atype ++ ltype ++ "User".

Definition good_prefix (p : string) : bool :=
  match p with
  | String c _ => negb (is_space c) && negb (c =? "#")%char
  | EmptyString => false
  end
  && forall_str is_word p && endswith "User" p && (5 <=? String.length p)%nat.


(** Examples used below. *)
Definition empty_manager : Manager := mkManager [] [] "" [].

Definition directory (ids : list string) : sdict User.t :=
  map (fun i => (i, User.mk i (upper i) (i ++ "@example.com"))) ids.

Definition entry (ltype atype : string) (idx : Z) (uid : string) : LicenseEntry :=
  mkEntry ltype atype idx uid 0 true.

(** Named/ALM slots 1, 2 and 4 are taken; [eve] and [dan] have no license. *)
Definition slots_124 : Manager :=
  mkManager (directory ["ann"; "ben"; "cat"; "dan"; "eve"])
            [entry "ALM" "Named" 1 "ann"; entry "ALM" "Named" 2 "ben";
             entry "ALM" "Named" 4 "cat"]
            "" [].

Definition user_of (i : string) : User.t := User.mk i (upper i) (i ++ "@example.com").

(** [slots_124] after [eve] was given the next Named/ALM slot, after that
    license was removed again, and after [dan] then asked for one. *)
Definition slots_add_eve : Manager :=
  fst (add_user_license slots_124 (user_of "eve") "ALM" "Named").


(** A Named subsection with an assignment whose prefix names neither a mode
    nor a category. *)
Definition plain_prefix_config : string :=
  join NL ["# ------------------------------- POLARION ALM -------------------------------";
           "# NAMED USERS:";
           "specialUser1=bob"].

(** The configuration of the test script. *)
Definition sample_config : string :=
  join NL ["# ------------------------------- POLARION ALM -------------------------------";
           "# NAMED USERS:";
           "namedALMUser1=bshrager";
           "namedALMUser2=uhizi";
           "# CONCURRENT USERS:";
           "concurrentALMUser1=asegal1";
           "concurrentALMUser2=ilanc";
           "";
           "# ------------------------------- POLARION QA -------------------------------";
           "# NAMED USERS:";
           "namedQAUser1=yossira";
           "# CONCURRENT USERS:";
           "concurrentQAUser1=bshrager"].


(** An assignment with a plain prefix between the section header and the
    first subheader that the parser recognises. *)
Definition unsectioned_config : string :=
  join NL ["# ------------------------------- POLARION Pro / POLARION QA";
           "## CONCURRENT USERS:";
           "fooUser2=x";
           "# CONCURRENT USERS:";
           "concurrentProUser1=b"].

(** An empty directory and one active license of a user written [Bob]. *)
Definition stale_Bob : Manager :=
  mkManager [] [entry "ALM" "Named" 1 "Bob"] "" [].

(** An empty directory and two active licenses of [ghost], resp. [Ghost]. *)
Definition two_ghost : list LicenseEntry :=
  [entry "ALM" "Named" 1 "ghost"; entry "QA" "Named" 1 "ghost"].
Definition two_Ghost : list LicenseEntry :=
  [entry "ALM" "Named" 1 "Ghost"; entry "QA" "Named" 1 "Ghost"].

(** [bob] has one active Named/ALM license, and an older one that was
    removed. *)
Definition bob_named_alm : Manager :=
  mkManager (directory ["ann"; "bob"])
            [deactivate (entry "QA" "Named" 1 "bob"); entry "ALM" "Named" 1 "ann";
             entry "ALM" "Named" 2 "Bob"]
            "" [].

(* ===================================================================== *)
(** ** Definitions used in the further properties *)
(* ===================================================================== *)

(** The line with the 1-based number [n]. *)
Definition line_at (lines : list string) (n : Z) : option string :=
  if (1 <=? n)%Z then nth_error lines (Z.to_nat (n - 1)) else None.

(** A prefix that names no mode and no category. *)
Definition plain_prefix (p : string) : bool :=
  negb (startswith "concurrent" (lower p)) && negb (startswith "named" (lower p))
  && negb (is_some (first_category (fun c => contains (lower c) (lower p)))).

(** Invariant I1: no user has two active entries, user ids compared without
    case. *)
Definition one_license_per_user (l : list LicenseEntry) : Prop :=
  forall uid, (List.length (active_entries_of uid l) <= 1)%nat.

(** [ann] holds two active licenses. *)
Definition ann_twice : Manager :=
  mkManager (directory ["ann"; "bob"])
            [entry "ALM" "Named" 1 "ann"; entry "QA" "Concurrent" 1 "Ann"]
            "" [].

(** The rendered licenses of a list of entries, as the query shows them. *)
Definition rendered_licenses (l : list LicenseEntry) : list string :=
  map (fun e => assignment_line (assignment_type e) (license_type e) (index e)
                                (user_id e)) l.



(** The partial match of the directory lookup. *)
Definition partial_match (i : string) (u : User.t) : bool :=
  contains i (lower (User.full_name u)) || contains i (lower (User.user_id u)).

(** No two active entries of a partition have the same slot index. *)
Definition unique_slots (l : list LicenseEntry) : Prop :=
  forall ltype atype, NoDup (active_indices ltype atype l).

(** The entry lists after the three operations. *)
Definition entries_after_add (m : Manager) (user : User.t) (ltype atype : string)
    : list LicenseEntry :=
  license_entries (fst (add_user_license m user ltype atype)).

Definition entries_after_remove (m : Manager) (uid ltype atype : string)
    : list LicenseEntry :=
  license_entries (fst (remove_user_license m uid ltype atype)).

Definition entries_after_switch (m : Manager) (user : User.t)
    (old_ltype old_atype new_ltype new_atype : string) : list LicenseEntry :=
  license_entries
    (fst (switch_user_license m user old_ltype old_atype new_ltype new_atype)).




(** What the normaliser promises of its three lists. *)
Definition identifiers_ok (r : Identifiers) : Prop :=
  Forall (fun s => s <> "" /\ looks_like_user_id s = true
                   /\ looks_like_email s = false) (user_ids r)
  /\ Forall (fun s => s <> "" /\ looks_like_email s = true) (emails r)
  /\ Forall (fun s => s <> "") (full_names r).

Definition identifier_count (r : Identifiers) : nat :=
  List.length (user_ids r) + List.length (full_names r) + List.length (emails r).


(** The test of [find_inactive_users_with_licenses] and of the last loop of
    [validate_changes]: an active entry whose user id, lower-cased, is not a
    key of the directory. *)
Definition is_stale (m : Manager) (e : LicenseEntry) : bool :=
  is_active e && negb (dict_mem String.eqb (lower (user_id e)) (users m)).

(** Choice 2 of [main], answered with [y]:
    [for entry in inactive_entries:
       manager.remove_user_license(entry.user_id, entry.license_type,
                                   entry.assignment_type)]
    where [inactive_entries] was computed before the loop. *)
Definition remove_inactive_users (m : Manager) : Manager :=
  fold_left
    (fun (m : Manager) (entry : LicenseEntry) =>
       fst (remove_user_license m (user_id entry) (license_type entry)
                                (assignment_type entry)))
    (find_inactive_users_with_licenses m) m.

(** The record that [remove_user_license] logs for an entry of a user who is
    not in the directory: the user name falls back to the user id. *)
Definition removal_record (e : LicenseEntry) : LicenseChange.t :=
  LicenseChange.mk (user_id e) (user_id e) "remove"
    (Some (assignment_type e ++ " " ++ license_type e)) None None
    (Some (assignment_line (assignment_type e) (license_type e) (index e)
                           (user_id e))).

(** The loop of [fetch_active_users] and of [load_users_from_file] that
    files the users built from the rows, after [self.users.clear()]:
    [self.users[user.user_id.lower()] = user]. *)
Definition index_users (rows : list User.t) : sdict User.t :=
  fold_left (fun d user => dict_set String.eqb (lower (User.user_id user)) user d)
            rows [].

(* ===================================================================== *)
(** ** Facts about characters and strings *)
(* ===================================================================== *)

Lemma lower_char_idem (c : ascii) : lower_char (lower_char c) = lower_char c.
Proof. destruct c as [[] [] [] [] [] [] [] []]; reflexivity. Qed.

Lemma lower_idem (s : string) : lower (lower s) = lower s.
Proof.
  unfold lower. induction s as [|c r IH]; simpl; [reflexivity|].
  now rewrite IH, lower_char_idem.
Qed.

Lemma eqb_false_sym (a b : string) : (a =? b) = false -> (b =? a) = false.
Proof. now rewrite String.eqb_sym. Qed.

(* ===================================================================== *)
(** ** Facts about dictionaries *)
(* ===================================================================== *)

Section DictFacts.
Context {V : Type}.
Implicit Types (k : string) (d : sdict V).

Lemma get_set_same k v d : dict_get String.eqb k (dict_set String.eqb k v d) = Some v.
Proof.
  induction d as [|[k' v'] r IH]; simpl.
  - now rewrite String.eqb_refl.
  - destruct (k' =? k) eqn:E; simpl; rewrite E; auto.
Qed.

Lemma get_set_other k k' v d :
  k <> k' ->
  dict_get String.eqb k' (dict_set String.eqb k v d) = dict_get String.eqb k' d.
Proof.
  intros Hne. induction d as [|[k0 v0] r IH]; simpl.
  - destruct (k =? k') eqn:E; [apply String.eqb_eq in E; contradiction|reflexivity].
  - destruct (k0 =? k) eqn:E; simpl.
    + apply String.eqb_eq in E; subst k0.
      destruct (k =? k') eqn:E'; [apply String.eqb_eq in E'; contradiction|reflexivity].
    + now rewrite IH.
Qed.

Lemma get_update_same k f d :
  dict_get String.eqb k (dict_update String.eqb k f d)
  = option_map f (dict_get String.eqb k d).
Proof.
  induction d as [|[k' v'] r IH]; simpl; [reflexivity|].
  destruct (k' =? k) eqn:E; simpl; rewrite E; auto.
Qed.

Lemma get_update_other k k' f d :
  k <> k' ->
  dict_get String.eqb k' (dict_update String.eqb k f d) = dict_get String.eqb k' d.
Proof.
  intros Hne. induction d as [|[k0 v0] r IH]; simpl; [reflexivity|].
  destruct (k0 =? k) eqn:E; simpl.
  - apply String.eqb_eq in E; subst k0.
    destruct (k =? k') eqn:E'; [apply String.eqb_eq in E'; contradiction|reflexivity].
  - now rewrite IH.
Qed.

Lemma mem_iff_get k d :
  dict_mem String.eqb k d = true <-> exists v, dict_get String.eqb k d = Some v.
Proof.
  unfold dict_mem. destruct (dict_get String.eqb k d).
  - split; eauto.
  - split; [discriminate | intros [v Hv]; discriminate].
Qed.

Lemma mem_false_get k d :
  dict_mem String.eqb k d = false <-> dict_get String.eqb k d = None.
Proof.
  unfold dict_mem. destruct (dict_get String.eqb k d); split; congruence.
Qed.
End DictFacts.

(* ===================================================================== *)
(** ** Mutation engine: slot allocation and removal *)
(* ===================================================================== *)

Lemma fold_max_spec (r : list Z) (x : Z) :
  let mx := fold_left Z.max r x in
  (x <= mx)%Z /\ (forall i, In i r -> (i <= mx)%Z) /\ (mx = x \/ In mx r).
Proof.
  revert x. induction r as [|y r IH]; intros x; simpl.
  - repeat split; [lia | intros i [] | now left].
  - destruct (IH (Z.max x y)) as (H1 & H2 & H3). repeat split.
    + lia.
    + intros i [<-|Hi]; [lia | now apply H2].
    + destruct H3 as [H3|H3]; [|now right; right].
      destruct (Z.max_spec x y) as [[_ E]|[_ E]]; rewrite E in *.
      * right; left; now symmetry.
      * now left.
Qed.

Lemma max_list_spec (l : list Z) :
  l <> [] -> In (max_list l) l /\ (forall i, In i l -> (i <= max_list l)%Z).
Proof.
  destruct l as [|x r]; [congruence|]. intros _.
  destruct (fold_max_spec r x) as (H1 & H2 & H3). simpl. split.
  - destruct H3 as [H3|H3]; [left; now rewrite H3 | now right].
  - intros i [<-|Hi]; [exact H1 | now apply H2].
Qed.

Lemma remove_match_spec (uid ltype atype : string) (e : LicenseEntry) :
  remove_match uid ltype atype e = true <-> active_match uid ltype atype e.
Proof.
  unfold remove_match, active_match.
  rewrite !andb_true_iff, !String.eqb_eq. tauto.
Qed.


Lemma find_split (p : LicenseEntry -> bool) (l : list LicenseEntry) (e : LicenseEntry) :
  find p l = Some e ->
  exists before after,
    l = (before ++ e :: after)%list /\ p e = true
    /\ (forall x, In x before -> p x = false)
    /\ deactivate_first p l = (before ++ deactivate e :: after)%list.
Proof.
  induction l as [|y r IH]; simpl; [discriminate|].
  destruct (p y) eqn:E.
  - intros [= <-]. exists [], r. repeat split; auto. intros x [].
  - intros H. destruct (IH H) as (b & a & -> & Hp & Hb & Hd).
    exists (y :: b), a. repeat split; auto.
    + intros x [<-|Hx]; auto.
    + simpl. now rewrite Hd.
Qed.





(* ===================================================================== *)
(** ** The license table *)
(* ===================================================================== *)

Lemma table_init_get_gen (us : sdict User.t) (t0 : Table) (k : string) :
  table_get k (fold_left (fun t kv => dict_set String.eqb (fst kv) [] t) us t0)
  = if dict_mem String.eqb k us then Some [] else table_get k t0.
Proof.
  revert t0. induction us as [|[k1 u] us IH]; intros t0; simpl; [reflexivity|].
  rewrite IH. unfold dict_mem. simpl.
  destruct (k1 =? k) eqn:E.
  - apply String.eqb_eq in E; subst k1. unfold table_get. rewrite get_set_same.
    now destruct (dict_get String.eqb k us).
  - fold (dict_mem String.eqb k us). destruct (dict_mem String.eqb k us); auto.
    unfold table_get. apply get_set_other. intros ->. now rewrite String.eqb_refl in E.
Qed.

Lemma table_init_get (us : sdict User.t) (k : string) :
  table_get k (table_init us)
  = if dict_mem String.eqb k us then Some [] else None.
Proof. unfold table_init. now rewrite table_init_get_gen. Qed.

(** The list of a lower-case key that is present collects, in order, the
    active entries whose user id has that lower case. *)
Lemma table_get_present (k : string) (entries : list LicenseEntry) :
  lower k = k ->
  forall (t : Table) (l0 : list LicenseEntry),
    table_get k t = Some l0 ->
    table_get k (fold_left table_add entries t)
    = Some (l0 ++ filter (fun e => is_active e && (lower (user_id e) =? k)) entries)%list.
Proof.
  intros Hk. induction entries as [|e r IH]; intros t l0 Ht; simpl.
  - now rewrite app_nil_r.
  - unfold table_add at 2. destruct (is_active e) eqn:A; simpl; [|now apply IH].
    destruct (lower (user_id e) =? k) eqn:E.
    + apply String.eqb_eq in E. rewrite E.
      assert (M : dict_mem String.eqb k t = true) by (apply mem_iff_get; eauto).
      rewrite M. rewrite (IH _ (l0 ++ [e])%list).
      * now rewrite <- app_assoc.
      * unfold table_get in *. now rewrite get_update_same, Ht.
    + assert (Hne : lower (user_id e) <> k)
        by (intros Heq; rewrite Heq, String.eqb_refl in E; discriminate).
      destruct (dict_mem String.eqb (lower (user_id e)) t).
      * apply IH. unfold table_get in *. now rewrite get_update_other.
      * apply IH. unfold table_get in *. rewrite get_set_other; auto.
        intros Heq. apply Hne. now rewrite Heq.
Qed.

Lemma table_get_directory (us : sdict User.t) (entries : list LicenseEntry) (k : string) :
  lower k = k ->
  dict_mem String.eqb k us = true ->
  table_get k (build_table us entries)
  = Some (filter (fun e => is_active e && (lower (user_id e) =? k)) entries).
Proof.
  intros Hk Hm. unfold build_table.
  rewrite (table_get_present k entries Hk _ []); [reflexivity|].
  now rewrite table_init_get, Hm.
Qed.

Lemma table_add_keeps_mem (k : string) (t : Table) (e : LicenseEntry) :
  dict_mem String.eqb k t = true -> dict_mem String.eqb k (table_add t e) = true.
Proof.
  intros H. unfold table_add. destruct (is_active e); auto.
  apply mem_iff_get in H. destruct H as [v Hv]. apply mem_iff_get.
  destruct (dict_mem String.eqb (lower (user_id e)) t).
  - destruct (String.eqb_spec (lower (user_id e)) k) as [->|Hne].
    + rewrite get_update_same, Hv. simpl. eauto.
    + rewrite get_update_other; eauto.
  - destruct (String.eqb_spec (user_id e) k) as [->|Hne].
    + rewrite get_set_same. eauto.
    + rewrite get_set_other; eauto.
Qed.




Lemma fold_keeps_mem (k : string) (l : list LicenseEntry) (t : Table) :
  dict_mem String.eqb k t = true ->
  dict_mem String.eqb k (fold_left table_add l t) = true.
Proof.
  revert t. induction l as [|e r IH]; intros t H; simpl; auto.
  apply IH. now apply table_add_keeps_mem.
Qed.

(* ===================================================================== *)
(** ** Mutation engine: add, and what follows a removal *)
(* ===================================================================== *)

Lemma add_success (m m' : Manager) (user : User.t) (ltype atype : string) :
  add_user_license m user ltype atype = (m', true) ->
  table_get_default (lower (User.user_id user)) (build_combined_user_license_table m) = []
  /\ license_entries m'
     = (license_entries m
        ++ [mkEntry ltype atype (find_available_slot m ltype atype)
                    (User.user_id user) 0 true])%list
  /\ users m' = users m
  /\ license_config_text m' = license_config_text m.
Proof.
  unfold add_user_license.
  destruct (table_get_default _ _); [|discriminate].
  intros [= <-]. simpl. auto.
Qed.

Lemma add_when_free (m : Manager) (user : User.t) (ltype atype : string) :
  table_get_default (lower (User.user_id user)) (build_combined_user_license_table m) = [] ->
  exists m',
    add_user_license m user ltype atype = (m', true)
    /\ license_entries m'
       = (license_entries m
          ++ [mkEntry ltype atype (find_available_slot m ltype atype)
                      (User.user_id user) 0 true])%list
    /\ users m' = users m.
Proof.
  intros H. unfold add_user_license. rewrite H. eexists. split; [reflexivity|].
  simpl. auto.
Qed.

Lemma slot_above_active (m : Manager) (ltype atype : string) (e : LicenseEntry) :
  In e (license_entries m) ->
  in_partition ltype atype e = true ->
  (index e < find_available_slot m ltype atype)%Z.
Proof.
  intros Hin Hp. unfold find_available_slot.
  assert (Hi : In (index e) (active_indices ltype atype (license_entries m))).
  { unfold active_indices. apply in_map. apply filter_In. auto. }
  fold (active_indices ltype atype (license_entries m)).
  destruct (active_indices ltype atype (license_entries m)) as [|x r] eqn:E;
    [destruct Hi|].
  assert (Hne : x :: r <> []) by discriminate.
  destruct (max_list_spec _ Hne) as [_ Hle]. specialize (Hle _ Hi). lia.
Qed.







(* ===================================================================== *)
(** ** Mutation engine: switch *)
(* ===================================================================== *)

Lemma filter_singleton_split {A : Type} (p : A -> bool) (b a : list A) (x y : A) :
  filter p (b ++ x :: a) = [y] -> p x = true ->
  filter p b = [] /\ filter p a = [] /\ x = y.
Proof.
  rewrite filter_app. simpl. intros H Hx. rewrite Hx in H.
  destruct (filter p b) as [|z zs].
  - simpl in H. injection H as -> H. auto.
  - simpl in H. injection H as _ H. destruct zs; discriminate.
Qed.

Lemma remove_when_found (m : Manager) (uid ltype atype : string) (t : LicenseEntry) :
  find (remove_match uid ltype atype) (license_entries m) = Some t ->
  exists m1,
    remove_user_license m uid ltype atype = (m1, true)
    /\ license_entries m1
       = deactivate_first (remove_match uid ltype atype) (license_entries m)
    /\ users m1 = users m.
Proof.
  intros F. unfold remove_user_license. rewrite F. eexists.
  split; [reflexivity|]. simpl. auto.
Qed.

(** C6.  For a user of the directory whose only active entry is Named/ALM,
    [switch] to Concurrent/QA succeeds; afterwards the user's only active
    entry is the new Concurrent/QA one, appended to the list, and the former
    entry is still at its place, inactive. *)
Theorem C6_switch_named_alm_to_concurrent_qa :
  forall (m : Manager) (user : User.t) (old_entry : LicenseEntry),
    dict_mem String.eqb (lower (User.user_id user)) (users m) = true ->
    active_entries_of (User.user_id user) (license_entries m) = [old_entry] ->
    license_type old_entry = "ALM" ->
    assignment_type old_entry = "Named" ->
    exists (m' : Manager) (before after : list LicenseEntry) (new_entry : LicenseEntry),
      switch_user_license m user "ALM" "Named" "QA" "Concurrent" = (m', true)
      /\ license_entries m = (before ++ old_entry :: after)%list
      /\ license_entries m'
         = (before ++ deactivate old_entry :: after ++ [new_entry])%list
      /\ active_entries_of (User.user_id user) (license_entries m') = [new_entry]
      /\ license_type new_entry = "QA"
      /\ assignment_type new_entry = "Concurrent"
      /\ user_id new_entry = User.user_id user
      /\ is_active new_entry = true.
Proof.
  intros m user old M Hone Ht Ha.
  set (uid := User.user_id user) in *.
  assert (Hold : In old (active_entries_of uid (license_entries m)))
    by (rewrite Hone; now left).
  apply filter_In in Hold. destruct Hold as [Hin Hact].
  apply andb_true_iff in Hact. destruct Hact as [A E]. apply String.eqb_eq in E.
  assert (Hm : remove_match uid "ALM" "Named" old = true)
    by (apply remove_match_spec; repeat split; auto).
  destruct (find (remove_match uid "ALM" "Named") (license_entries m)) as [t|] eqn:F;
    [|now rewrite (find_none _ _ F old Hin) in Hm].
  destruct (find_split _ _ _ F) as (b & a & Hl & Hp & Hb & Hd).
  apply remove_match_spec in Hp. destruct Hp as (E' & _ & _ & A').
  assert (Pt : (fun e => is_active e && (lower (user_id e) =? lower uid)) t = true)
    by (simpl; rewrite A', E'; apply String.eqb_refl).
  unfold active_entries_of in Hone. rewrite Hl in Hone.
  destruct (filter_singleton_split _ _ _ _ _ Hone Pt) as (Fb & Fa & ->).
  destruct (remove_when_found m uid "ALM" "Named" old F) as (m1 & R & He1 & Hu1).
  assert (Hfree : table_get_default (lower (User.user_id user))
                    (build_combined_user_license_table m1) = []).
  { unfold table_get_default, build_combined_user_license_table. fold uid.
    rewrite Hu1, He1.
    rewrite (table_get_directory _ _ _ (lower_idem uid)); [|exact M].
    rewrite Hd, filter_app. simpl. rewrite Fb, Fa. reflexivity. }
  destruct (add_when_free m1 user "QA" "Concurrent" Hfree) as (m2 & Hadd & He & _).
  eexists. exists b, a. eexists.
  split.
  { unfold switch_user_license. fold uid. rewrite R. simpl. rewrite Hadd. simpl.
    reflexivity. }
  simpl. rewrite He, He1, Hd, <- app_assoc. simpl.
  split; [exact Hl|]. split; [reflexivity|]. split; [|auto].
  unfold active_entries_of. rewrite filter_app. simpl. rewrite Fb. simpl.
  rewrite filter_app, Fa. simpl. fold uid. now rewrite String.eqb_refl.
Qed.

Lemma C6_witness :
  exists (m' : Manager) (before after : list LicenseEntry) (new_entry : LicenseEntry),
    switch_user_license bob_named_alm (user_of "bob") "ALM" "Named" "QA" "Concurrent"
    = (m', true)
    /\ license_entries bob_named_alm
       = (before ++ entry "ALM" "Named" 2 "Bob" :: after)%list
    /\ license_entries m'
       = (before ++ deactivate (entry "ALM" "Named" 2 "Bob") :: after ++ [new_entry])%list
    /\ active_entries_of "bob" (license_entries m') = [new_entry]
    /\ license_type new_entry = "QA"
    /\ assignment_type new_entry = "Concurrent"
    /\ user_id new_entry = "bob"
    /\ is_active new_entry = true.
Proof.
  apply (C6_switch_named_alm_to_concurrent_qa bob_named_alm (user_of "bob")
           (entry "ALM" "Named" 2 "Bob")); reflexivity.
Defined.

(* ===================================================================== *)
(** ** The license table and users that are not in the directory *)
(* ===================================================================== *)

Section Stale.
Variable uid : string.

Lemma stale_step (t : Table) (acc : option LicenseEntry) (e : LicenseEntry) :
  (is_active e = true -> user_id e <> lower uid) ->
  stale_inv uid t acc ->
  stale_inv uid (table_add t e)
            (if is_active e && (user_id e =? uid) then Some e else acc).
Proof.
  intros Hne (I1 & I2 & I3). unfold table_add.
  destruct (is_active e) eqn:A; simpl; [|now repeat split].
  specialize (Hne eq_refl).
  destruct (String.eqb_spec (user_id e) uid) as [E|E].
  - rewrite E, I1. repeat split.
    + apply mem_false_get. rewrite get_set_other; [now apply mem_false_get|].
      congruence.
    + intros k l x Hk Hl Hx. unfold table_get in Hl.
      rewrite get_set_other in Hl by congruence. eapply I2; eauto.
    + unfold table_get. apply get_set_same.
  - destruct (dict_mem String.eqb (lower (user_id e)) t) eqn:M.
    + assert (K1 : lower (user_id e) <> lower uid)
        by (intros Heq; rewrite Heq in M; congruence).
      assert (K2 : lower (user_id e) <> uid).
      { intros Heq. apply K1. rewrite <- Heq. symmetry. apply lower_idem. }
      repeat split.
      * apply mem_false_get. rewrite get_update_other by exact K1.
        now apply mem_false_get.
      * intros k l x Hk Hl Hx. unfold table_get in Hl.
        destruct (String.eqb_spec (lower (user_id e)) k) as [Ek|Ek].
        -- subst k. rewrite get_update_same in Hl.
           destruct (dict_get String.eqb (lower (user_id e)) t) as [l0|] eqn:G;
             [|discriminate].
           injection Hl as <-. apply in_app_or in Hx. destruct Hx as [Hx|[<-|[]]].
           ++ eapply I2; eauto.
           ++ exact E.
        -- rewrite get_update_other in Hl by exact Ek. eapply I2; eauto.
      * destruct acc; auto. unfold table_get in *.
        now rewrite get_update_other by exact K2.
    + repeat split.
      * apply mem_false_get. rewrite get_set_other by exact Hne.
        now apply mem_false_get.
      * intros k l x Hk Hl Hx. unfold table_get in Hl.
        destruct (String.eqb_spec (user_id e) k) as [Ek|Ek].
        -- subst k. rewrite get_set_same in Hl. injection Hl as <-.
           destruct Hx as [<-|[]]. exact E.
        -- rewrite get_set_other in Hl by exact Ek. eapply I2; eauto.
      * destruct acc; auto. unfold table_get in *.
        now rewrite get_set_other by exact E.
Qed.

Lemma stale_fold (l : list LicenseEntry) :
  (forall e, In e l -> is_active e = true -> user_id e <> lower uid) ->
  forall (t : Table) (acc : option LicenseEntry),
    stale_inv uid t acc ->
    stale_inv uid (fold_left table_add l t)
              (fold_left (fun acc e =>
                            if is_active e && (user_id e =? uid) then Some e else acc)
                         l acc).
Proof.
  induction l as [|e r IH]; intros Hne t acc I; simpl; auto.
  apply IH.
  - intros x Hx. apply Hne. now right.
  - apply stale_step; auto. apply Hne. now left.
Qed.
End Stale.

(** C10 (amended).  Let the lower-cased [uid] be neither a key of the
    directory nor literally the user id of an active entry.  Then the table
    maps [uid] to the one-element list of the last active entry whose user id
    is literally [uid], and no other list of the table holds an entry with
    that user id: the earlier ones are not in the table. *)
Theorem C10_stale_entries_overwritten :
  forall (us : sdict User.t) (entries : list LicenseEntry) (uid : string)
         (last_entry : LicenseEntry),
    dict_mem String.eqb (lower uid) us = false ->
    (forall e, In e entries -> is_active e = true -> user_id e <> lower uid) ->
    last_active_with_id uid entries = Some last_entry ->
    table_get uid (build_table us entries) = Some [last_entry]
    /\ forall k l e,
         k <> uid -> table_get k (build_table us entries) = Some l -> In e l ->
         user_id e <> uid.
Proof.
  intros us entries uid last_entry M Hne Hlast.
  assert (I0 : stale_inv uid (table_init us) None).
  { repeat split.
    - apply mem_false_get. fold (table_get (lower uid) (table_init us)).
      now rewrite table_init_get, M.
    - intros k l e _ Hl Hin. rewrite table_init_get in Hl.
      destruct (dict_mem String.eqb k us); [|discriminate].
      injection Hl as <-. destruct Hin. }
  pose proof (stale_fold uid entries Hne _ _ I0) as (_ & I2 & I3).
  unfold last_active_with_id in Hlast. rewrite Hlast in I3. split; auto.
Qed.

Lemma C10_witness :
  table_get "Ghost" (build_table [] two_Ghost) = Some [entry "QA" "Named" 1 "Ghost"]
  /\ forall k l e,
       k <> "Ghost" -> table_get k (build_table [] two_Ghost) = Some l -> In e l ->
       user_id e <> "Ghost".
Proof.
  apply (C10_stale_entries_overwritten [] two_Ghost "Ghost").
  - reflexivity.
  - intros e [<-|[<-|[]]] _; discriminate.
  - reflexivity.
Defined.

(** C10, as stated, fails: two active entries of the user [ghost], who is not
    in the directory, are both in the list that the table holds for [ghost]. *)
Lemma C10_counterexample :
  dict_mem String.eqb (lower "ghost") (@nil (string * User.t)) = false
  /\ build_table [] two_ghost
     = [("ghost", [entry "ALM" "Named" 1 "ghost"; entry "QA" "Named" 1 "ghost"])].
Proof. split; reflexivity. Qed.

(* ===================================================================== *)
(** ** Query *)
(* ===================================================================== *)

Lemma query_one_status (m : Manager) (t : Table) (s1 s2 : Stats) (identifier : string) :
  In (r_status (query_one m t s1 s2 identifier)) statuses
  /\ r_identifier (query_one m t s1 s2 identifier) = identifier.
Proof.
  unfold query_one, statuses.
  destruct (find_user_by_identifier m identifier) as [u|]; [|simpl; auto].
  destruct (table_get_default _ t) as [|e r]; [simpl; auto|].
  destruct (map _ (filter is_active (e :: r))); simpl; auto 6.
Qed.



(* ===================================================================== *)
(** ** Identifier normaliser *)
(* ===================================================================== *)





(* ===================================================================== *)
(** ** Parser: where the mode and the category of a line come from *)
(* ===================================================================== *)

(** The parser never reads [current_assignment_type]: an entry takes its
    mode from its prefix, or else the default. *)
Lemma parse_assignment_ignores_mode_context
    (cat mode mode' part : option string) (n : Z) (active : bool)
    (prefix index_str uid : string) :
  snd (parse_assignment (mkCtx cat mode part) n active prefix index_str uid)
  = snd (parse_assignment (mkCtx cat mode' part) n active prefix index_str uid).
Proof.
  unfold parse_assignment. simpl.
  destruct (strip uid =? ""); [reflexivity|].
  destruct (startswith "concurrent" (lower prefix)).
  { destruct (or_else _ cat); reflexivity. }
  destruct (startswith "named" (lower prefix)).
  { destruct (or_else _ cat); reflexivity. }
  destruct (first_category (fun c => contains (lower c) (lower prefix))); simpl.
  { reflexivity. }
  destruct part; simpl.
  - destruct (or_else _ cat); reflexivity.
  - destruct cat; reflexivity.
Qed.

Lemma parse_assignment_default_mode
    (ctx ctx' : ParseCtx) (n : Z) (active : bool) (prefix index_str uid : string)
    (e : LicenseEntry) :
  startswith "concurrent" (lower prefix) = false ->
  startswith "named" (lower prefix) = false ->
  parse_assignment ctx n active prefix index_str uid = (ctx', Some e) ->
  assignment_type e = "Concurrent".
Proof.
  unfold parse_assignment. intros -> ->.
  destruct (strip uid =? ""); [discriminate|].
  destruct (first_category (fun c => contains (lower c) (lower prefix))); simpl.
  { intros [= _ <-]. reflexivity. }
  destruct (category_part ctx); simpl.
  - destruct (or_else _ (current_category ctx)); [|discriminate].
    intros [= _ <-]. reflexivity.
  - destruct (current_category ctx); [|discriminate].
    intros [= _ <-]. reflexivity.
Qed.

(** C5, at the failing input.  Below a NAMED USERS subheader, the line
    [specialUser1=bob] is parsed into a Concurrent entry: the category comes
    from the section, the mode does not come from the subsection. *)
Theorem C5_plain_prefix_under_named_header :
  parse_text plain_prefix_config = [mkEntry "ALM" "Concurrent" 1 "bob" 3 true].
Proof. reflexivity. Qed.

(* ===================================================================== *)
(** ** Round trip through the serializer: strings *)
(* ===================================================================== *)

Lemma append_assoc (a b c : string) : (a ++ b) ++ c = a ++ b ++ c.
Proof. induction a as [|x a IH]; simpl; [reflexivity|now rewrite IH]. Qed.

Lemma append_nil_r (a : string) : a ++ "" = a.
Proof. induction a as [|x a IH]; simpl; [reflexivity|now rewrite IH]. Qed.

Lemma forall_str_app (p : ascii -> bool) (a b : string) :
  forall_str p (a ++ b) = forall_str p a && forall_str p b.
Proof.
  induction a as [|x a IH]; simpl; [reflexivity|]. now rewrite IH, andb_assoc.
Qed.

Lemma forall_str_lstrip (p : ascii -> bool) (s : string) :
  forall_str p s = true -> forall_str p (lstrip s) = true.
Proof.
  induction s as [|c r IH]; simpl; auto.
  intros H. apply andb_true_iff in H. destruct H as [Hc Hr].
  destruct (is_space c); auto. simpl. now rewrite Hc, Hr.
Qed.

Lemma forall_str_rstrip (p : ascii -> bool) (s : string) :
  forall_str p s = true -> forall_str p (rstrip s) = true.
Proof.
  induction s as [|c r IH]; simpl; auto.
  intros H. apply andb_true_iff in H. destruct H as [Hc Hr].
  specialize (IH Hr). destruct (rstrip r).
  - destruct (is_space c); simpl; auto. now rewrite Hc.
  - simpl in *. now rewrite Hc, IH.
Qed.

Lemma forall_str_strip (p : ascii -> bool) (s : string) :
  forall_str p s = true -> forall_str p (strip s) = true.
Proof. intros H. unfold strip. now apply forall_str_lstrip, forall_str_rstrip. Qed.

Lemma forall_str_drop (p : ascii -> bool) (n : nat) (s : string) :
  forall_str p s = true -> forall_str p (drop n s) = true.
Proof.
  revert s. induction n as [|n IH]; intros [|c r]; simpl; auto.
  intros H. apply andb_true_iff in H. now apply IH.
Qed.

Lemma lstrip_idem (s : string) : lstrip (lstrip s) = lstrip s.
Proof.
  induction s as [|c r IH]; simpl; auto.
  destruct (is_space c) eqn:E; auto. simpl. now rewrite E.
Qed.

Lemma rstrip_idem (s : string) : rstrip (rstrip s) = rstrip s.
Proof.
  induction s as [|c r IH]; simpl; auto.
  destruct (rstrip r) as [|c' r'] eqn:E.
  - destruct (is_space c) eqn:S; simpl; auto. now rewrite S.
  - simpl in IH. simpl. destruct (rstrip r') eqn:E'.
    + destruct (is_space c'); [discriminate|]. now rewrite IH.
    + now rewrite IH.
Qed.

Lemma rstrip_head (c : ascii) (r : string) :
  is_space c = false -> exists r', rstrip (String c r) = String c r'.
Proof. intros H. simpl. destruct (rstrip r); rewrite ?H; eauto. Qed.

Lemma rstrip_lstrip (s : string) : rstrip (lstrip s) = lstrip (rstrip s).
Proof.
  induction s as [|c r IH]; auto.
  destruct (is_space c) eqn:S.
  - simpl lstrip at 1. rewrite S, IH. simpl rstrip.
    destruct (rstrip r); simpl; now rewrite S.
  - simpl lstrip at 1. rewrite S.
    destruct (rstrip_head c r S) as [r' ->]. simpl. now rewrite S.
Qed.

Lemma lstrip_strip (s : string) : lstrip (strip s) = strip s.
Proof. unfold strip. apply lstrip_idem. Qed.

Lemma rstrip_strip (s : string) : rstrip (strip s) = strip s.
Proof. unfold strip. now rewrite rstrip_lstrip, rstrip_idem. Qed.

Lemma rstrip_app (a b : string) :
  rstrip b <> "" -> rstrip (a ++ b) = a ++ rstrip b.
Proof.
  intros Hb. induction a as [|c a IH]; simpl; auto.
  rewrite IH. destruct (a ++ rstrip b) eqn:E; auto.
  destruct a; simpl in E; [contradiction|discriminate].
Qed.

Lemma strip_fixed (c : ascii) (a b : string) :
  is_space c = false -> rstrip b = b -> b <> "" ->
  strip (String c a ++ b) = String c a ++ b.
Proof.
  intros Hc Hb Hne. unfold strip. rewrite rstrip_app by now rewrite Hb.
  rewrite Hb. simpl. now rewrite Hc.
Qed.


Lemma span_all (p : ascii -> bool) (a : string) :
  forall_str p a = true -> span p a = (a, "").
Proof.
  induction a as [|c a IH]; simpl; auto.
  intros H. apply andb_true_iff in H. destruct H as [Hc Ha].
  now rewrite Hc, IH.
Qed.

Lemma span_app (p : ascii -> bool) (a : string) (c : ascii) (b : string) :
  forall_str p a = true -> p c = false ->
  span p (a ++ String c b) = (a, String c b).
Proof.
  induction a as [|x a IH]; simpl; intros Ha Hc.
  - now rewrite Hc.
  - apply andb_true_iff in Ha. destruct Ha as [Hx Ha]. now rewrite Hx, IH.
Qed.

Lemma span_fst_forall (p : ascii -> bool) (s : string) :
  forall_str p (fst (span p s)) = true.
Proof.
  induction s as [|c r IH]; simpl; auto.
  destruct (p c) eqn:E; simpl; auto.
  destruct (span p r). simpl in *. now rewrite E.
Qed.

Lemma split_digits_all (d : string) :
  forall_str is_digit d = true -> split_trailing_digits d = ("", d).
Proof.
  induction d as [|c d IH]; simpl; auto.
  intros H. apply andb_true_iff in H. destruct H as [Hc Hd].
  now rewrite IH, Hc.
Qed.

Lemma split_digits_app (a : string) (c : ascii) (d : string) :
  is_digit c = false -> forall_str is_digit d = true ->
  split_trailing_digits (a ++ String c d) = (a ++ String c "", d).
Proof.
  intros Hc Hd. induction a as [|x a IH]; simpl.
  - now rewrite split_digits_all, Hc.
  - rewrite IH. now destruct a.
Qed.

Lemma contains_app (sub a b : string) :
  contains sub b = true -> contains sub (a ++ b) = true.
Proof.
  intros H. induction a as [|c a IH]; simpl; auto.
  rewrite IH. apply orb_true_r.
Qed.

Lemma prefix_empty (s : string) : String.prefix "" s = true.
Proof. now destruct s. Qed.

Lemma prefix_head_neq (a c : ascii) (p r : string) :
  a <> c -> String.prefix (String a p) (String c r) = false.
Proof. intros H. simpl. now destruct (ascii_dec a c). Qed.

Lemma prefix_head_eq (a : ascii) (p r : string) :
  String.prefix (String a p) (String a r) = String.prefix p r.
Proof. simpl. destruct (ascii_dec a a); [reflexivity|contradiction]. Qed.

Lemma contains_eq_sign (a b : string) : contains "=" (a ++ String "=" b) = true.
Proof.
  apply contains_app. simpl. destruct (ascii_dec "=" "="); [|contradiction].
  now rewrite prefix_empty.
Qed.

Lemma drop_decompose (n : nat) (s : string) : exists a, s = a ++ drop n s.
Proof.
  revert s. induction n as [|n IH]; intros s.
  - now exists "".
  - destruct s as [|c r]; [now exists ""|].
    destruct (IH r) as [a Ha]. exists (String c a). simpl. now rewrite <- Ha.
Qed.

Lemma endswith_decompose (suf s : string) :
  endswith suf s = true -> exists a, s = a ++ suf.
Proof.
  unfold endswith. intros H. apply andb_true_iff in H. destruct H as [_ H].
  apply String.eqb_eq in H.
  destruct (drop_decompose (String.length s - String.length suf) s) as [a Ha].
  exists a. now rewrite H in Ha.
Qed.

Lemma to_int_nonneg (n : Z) :
  (0 <= n)%Z ->
  exists d, Z.to_int n = Decimal.Pos d /\ Z.of_uint d = n /\ d <> Decimal.Nil.
Proof.
  intros H. destruct n as [|p|p]; [| |lia].
  - exists Decimal.zero. repeat split. discriminate.
  - exists (Pos.to_uint p). pose proof (DecimalZ.of_to (Z.pos p)) as R.
    simpl in R. repeat split; auto. intros E. rewrite E in R. discriminate.
Qed.

Lemma string_of_uint_digits (d : Decimal.uint) :
  forall_str is_digit (NilEmpty.string_of_uint d) = true.
Proof. induction d; simpl; auto. Qed.

Lemma str_of_int_spec (n : Z) :
  (0 <= n)%Z ->
  forall_str is_digit (str_of_int n) = true
  /\ str_of_int n <> ""
  /\ int_of_digits (str_of_int n) = n.
Proof.
  intros H. destruct (to_int_nonneg n H) as (d & E & Hd & Hn).
  unfold str_of_int, int_of_digits. rewrite E. simpl. repeat split.
  - apply string_of_uint_digits.
  - destruct d; try discriminate. contradiction.
  - now rewrite NilEmpty.usu.
Qed.

Lemma int_of_digits_nonneg (s : string) : (0 <= int_of_digits s)%Z.
Proof.
  unfold int_of_digits. destruct (NilEmpty.uint_of_string s); [|lia].
  unfold Z.of_uint. apply N2Z.is_nonneg.
Qed.

Lemma digit_is_word (d : string) :
  forall_str is_digit d = true -> forall_str is_word d = true.
Proof.
  induction d as [|c d IH]; simpl; auto.
  intros H. apply andb_true_iff in H. destruct H as [Hc Hd].
  rewrite (IH Hd), andb_true_r. unfold is_word, is_alnum. now rewrite Hc.
Qed.


(** *** Splitting a text into lines and joining lines *)

Lemma split_nonempty (sep : ascii) (s : string) : split sep s <> [].
Proof.
  destruct s as [|c r]; simpl; [discriminate|].
  destruct (c =? sep)%char; [discriminate|]. destruct (split sep r); discriminate.
Qed.





(** *** A rendered assignment line is matched as it was built *)

Lemma match_rendered (p d u : string) :
  good_prefix p = true ->
  forall_str is_digit d = true -> d <> "" ->
  forall_str not_newline u = true -> u <> "" ->
  match_assignment (p ++ d ++ String "=" u) = Some (p, d, u).
Proof.
  intros Hp Hd Hd0 Hu Hu0. unfold good_prefix in Hp.
  repeat (apply andb_true_iff in Hp; destruct Hp as [Hp ?]).
  destruct (endswith_decompose "User" p) as [a Ha]; auto.
  unfold match_assignment. rewrite <- append_assoc.
  rewrite span_app; [| |reflexivity].
  2:{ rewrite forall_str_app, (digit_is_word d Hd). now rewrite andb_true_r. }
  assert (E : p ++ d = (a ++ "Use") ++ String "r" d).
  { rewrite Ha. rewrite !append_assoc. reflexivity. }
  rewrite E, split_digits_app by auto.
  replace ((a ++ "Use") ++ "r") with p by (rewrite Ha, append_assoc; reflexivity).
  change (fun c => negb (c =? newline)%char) with not_newline.
  rewrite (span_all _ _ Hu). simpl fst.
  destruct d; [contradiction|]. destruct u; [contradiction|].
  simpl negb. rewrite andb_true_r, andb_true_r.
  now rewrite andb_true_intro by auto.
Qed.

Lemma good_prefix_head (p : string) :
  good_prefix p = true ->
  exists c p', p = String c p' /\ is_space c = false /\ c <> "#"%char.
Proof.
  unfold good_prefix. destruct p as [|c p']; [discriminate|].
  intros H. repeat (apply andb_true_iff in H; destruct H as [H ?]).
  apply negb_true_iff in H. exists c, p'. repeat split; auto.
  intros ->. discriminate.
Qed.

Lemma rstrip_cons_fixed (c : ascii) (u : string) :
  rstrip u = u -> u <> "" -> rstrip (String c u) = String c u.
Proof. intros H H0. simpl. rewrite H. now destruct u. Qed.

Lemma parse_line_rendered (ctx : ParseCtx) (n : Z) (p d u : string) :
  good_prefix p = true ->
  forall_str is_digit d = true -> d <> "" ->
  forall_str not_newline u = true -> u <> "" -> rstrip u = u ->
  parse_line ctx n (p ++ d ++ String "=" u) = parse_assignment ctx n true p d u.
Proof.
  intros Hp Hd Hd0 Hu Hu0 Hr.
  pose proof (match_rendered p d u Hp Hd Hd0 Hu Hu0) as M.
  destruct (good_prefix_head p Hp) as (c & p' & -> & Hc & Hh).
  assert (Hh' : "#"%char <> c) by congruence.
  assert (S : strip (String c p' ++ d ++ String "=" u)
              = String c p' ++ d ++ String "=" u).
  { rewrite <- append_assoc.
    change (String c p' ++ d) with (String c (p' ++ d)).
    apply strip_fixed; auto; [now apply rstrip_cons_fixed | discriminate]. }
  unfold parse_line. rewrite S.
  unfold startswith, SECTION_HEADER, NAMED_HEADER, CONCURRENT_HEADER.
  change (String c p' ++ d ++ String "=" u) with (String c (p' ++ d ++ String "=" u)).
  rewrite !(prefix_head_neq _ _ _ _ Hh'). simpl negb.
  change (String c (p' ++ d ++ String "=" u)) with (String c p' ++ d ++ String "=" u).
  rewrite <- append_assoc, contains_eq_sign, append_assoc, M. reflexivity.
Qed.

Lemma parse_assignment_rendered (ctx : ParseCtx) (n : Z) (atype ltype d u : string) :
  In ltype license_categories ->
  atype = "Named" \/ atype = "Concurrent" ->
  strip u = u -> u <> "" ->
  good_prefix (prefix_of atype ltype) = true
  /\ snd (parse_assignment ctx n true (prefix_of atype ltype) d u)
     = Some (mkEntry ltype atype (int_of_digits d) u n true).
Proof.
  intros Hl Ha Hs Hu. unfold parse_assignment.
  rewrite Hs. destruct (String.eqb_spec u "") as [|_]; [contradiction|].
  destruct ctx as [cat mode part].
  simpl in Hl.
  destruct Hl as [<-|[<-|[<-|[<-|[<-|[]]]]]]; destruct Ha as [->| ->];
    split; reflexivity.
Qed.

Lemma parse_assignment_active (ctx ctx' : ParseCtx) (n : Z) (active : bool)
    (p d u : string) (e : LicenseEntry) :
  parse_assignment ctx n active p d u = (ctx', Some e) -> is_active e = active.
Proof.
  unfold parse_assignment. destruct (strip u =? ""); [discriminate|].
  destruct (if startswith "concurrent" (lower p) then _ else _) as [[c0 a0] p0].
  destruct (match c0, p0 with | None, Some _ => _ | _, _ => _ end) as [c1 p1].
  destruct (or_else (or_else c1 _) _); [|discriminate].
  destruct (or_else a0 _); [|discriminate].
  intros [= _ <-]. reflexivity.
Qed.


Lemma assignment_line_eq (atype ltype : string) (idx : Z) (uid : string) :
  assignment_line atype ltype idx uid
  = prefix_of atype ltype ++ str_of_int idx ++ String "=" uid.
Proof.
  unfold assignment_line, prefix_of. now rewrite !append_assoc.
Qed.



(* ===================================================================== *)
(** ** Round trip through the serializer: the parser *)
(* ===================================================================== *)



Lemma first_category_in (P : string -> bool) (c : string) :
  first_category P = Some c -> In c license_categories.
Proof. intros H. now destruct (find_some _ _ H). Qed.

Lemma or_else_in (a b : option string) (c : string) :
  or_else a b = Some c -> a = Some c \/ b = Some c.
Proof. destruct a; simpl; auto. Qed.

Lemma match_assignment_value (line p d u : string) :
  match_assignment line = Some (p, d, u) -> forall_str not_newline u = true.
Proof.
  unfold match_assignment. destruct (span is_word line) as [run rest].
  destruct (split_trailing_digits run) as [p0 d0].
  destruct rest as [|c tail]; [discriminate|].
  destruct c as [[] [] [] [] [] [] [] []]; try discriminate.
  destruct (_ && _); [|discriminate]. intros [= _ _ <-].
  apply span_fst_forall.
Qed.

Lemma parse_assignment_wf (ctx ctx' : ParseCtx) (n : Z) (active : bool)
    (p d u : string) (r : option LicenseEntry) :
  ctx_ok ctx -> forall_str not_newline u = true ->
  parse_assignment ctx n active p d u = (ctx', r) ->
  ctx_ok ctx' /\ forall e, r = Some e -> well_formed_entry e.
Proof.
  intros Hok Hu. unfold parse_assignment.
  destruct (strip u =? "") eqn:Eu.
  { intros [= <- <-]. split; [exact Hok|discriminate]. }
  apply String.eqb_neq in Eu.
  set (fc := first_category (fun c => contains (lower c) (lower p))).
  assert (Hfc : forall c, fc = Some c -> In c license_categories)
    by (intros c; apply first_category_in).
  assert (Hcur : forall c, current_category ctx = Some c -> In c license_categories).
  { intros c Hc. unfold ctx_ok in Hok. now rewrite Hc in Hok. }
  assert (W : forall c a part1,
             In c license_categories -> a = "Named" \/ a = "Concurrent" ->
             ctx_ok (mkCtx (current_category ctx) (current_assignment_type ctx) part1)
             /\ forall e, Some (mkEntry c a (int_of_digits d) (strip u) n active) = Some e ->
                          well_formed_entry e).
  { intros c a part1 Hc Ha. split; [exact Hok|]. intros e [= <-].
    unfold well_formed_entry. simpl.
    repeat split; auto using int_of_digits_nonneg, lstrip_strip, rstrip_strip,
                    forall_str_strip. }
  assert (N : forall part1,
             ctx_ok (mkCtx (current_category ctx) (current_assignment_type ctx) part1)
             /\ forall e, @None LicenseEntry = Some e -> well_formed_entry e).
  { intros part1. split; [exact Hok|discriminate]. }
  destruct (startswith "concurrent" (lower p)); [|destruct (startswith "named" (lower p))].
  - cbv zeta beta iota.
    destruct (first_category (fun c => lower c =? lower _)) as [c1|] eqn:E1; simpl.
    + intros [= <- <-]. apply W; auto. eapply first_category_in; eauto.
    + destruct fc as [c2|] eqn:E2; simpl.
      * intros [= <- <-]. apply W; auto.
      * destruct (current_category ctx) as [c3|]; intros [= <- <-];
          [apply W; auto | apply N].
  - cbv zeta beta iota.
    destruct (first_category (fun c => lower c =? lower _)) as [c1|] eqn:E1; simpl.
    + intros [= <- <-]. apply W; auto. eapply first_category_in; eauto.
    + destruct fc as [c2|] eqn:E2; simpl.
      * intros [= <- <-]. apply W; auto.
      * destruct (current_category ctx) as [c3|]; intros [= <- <-];
          [apply W; auto | apply N].
  - cbv zeta beta iota. destruct fc as [c2|] eqn:E2.
    + simpl. intros [= <- <-]. apply W; auto.
    + destruct (category_part ctx) as [part|].
      * destruct (first_category (fun c => lower c =? lower _)) as [c1|] eqn:E1; simpl.
        -- intros [= <- <-]. apply W; auto. eapply first_category_in; eauto.
        -- destruct (current_category ctx) as [c3|]; intros [= <- <-];
             [apply W; auto | apply N].
      * simpl. destruct (current_category ctx) as [c3|]; intros [= <- <-];
          [apply W; auto | apply N].
Qed.

Lemma parse_line_wf (ctx ctx' : ParseCtx) (n : Z) (raw : string)
    (r : option LicenseEntry) :
  ctx_ok ctx ->
  parse_line ctx n raw = (ctx', r) ->
  ctx_ok ctx' /\ forall e, r = Some e -> well_formed_entry e.
Proof.
  intros Hok. unfold parse_line.
  destruct (strip raw =? "").
  { intros [= <- <-]. split; [exact Hok|discriminate]. }
  destruct (startswith SECTION_HEADER (strip raw)).
  { intros [= <- <-]. split; [|discriminate]. unfold ctx_ok. simpl.
    destruct (first_category _) as [c|] eqn:E; simpl.
    - eapply first_category_in; eauto.
    - exact Hok. }
  destruct (startswith NAMED_HEADER (strip raw)).
  { intros [= <- <-]. split; [exact Hok|discriminate]. }
  destruct (startswith CONCURRENT_HEADER (strip raw)).
  { intros [= <- <-]. split; [exact Hok|discriminate]. }
  destruct (contains "=" (strip raw)).
  2:{ intros [= <- <-]. split; [exact Hok|discriminate]. }
  destruct (match_assignment _) as [[[p d] u]|] eqn:M.
  2:{ intros [= <- <-]. split; [exact Hok|discriminate]. }
  intros H. eapply parse_assignment_wf; eauto.
  eapply match_assignment_value; eauto.
Qed.

Lemma parse_lines_wf (lines : list string) :
  forall (ctx : ParseCtx) (n : Z),
    ctx_ok ctx -> Forall well_formed_entry (parse_lines ctx n lines).
Proof.
  induction lines as [|raw rest IH]; intros ctx n Hok; simpl; [constructor|].
  destruct (parse_line ctx n raw) as [ctx' r] eqn:P.
  destruct (parse_line_wf _ _ _ _ _ Hok P) as [Hok' Hr].
  destruct r as [e|]; [constructor|]; auto.
Qed.

Lemma parse_text_wf (config_text : string) :
  Forall well_formed_entry (parse_text config_text).
Proof. apply parse_lines_wf. exact I. Qed.

(* ===================================================================== *)
(** ** Round trip through the serializer: sorting, grouping, placing *)
(* ===================================================================== *)



















(* ===================================================================== *)
(** ** Round trip through the serializer *)
(* ===================================================================== *)





(** Outside the sections the round trip can even add an assignment: the
    line with the plain prefix is kept, and on the second reading it takes
    the category of the rendered line that now stands before it. *)
Lemma round_trip_of_unsectioned_text :
  ~ sectioned unsectioned_config
  /\ active_quads (parse_text unsectioned_config)
     = [("QA", "Concurrent", 2%Z, "x"); ("Pro", "Concurrent", 1%Z, "b")]
  /\ active_quads
       (parse_text (serialize unsectioned_config (parse_text unsectioned_config)))
     = [("QA", "Concurrent", 2%Z, "x"); ("Pro", "Concurrent", 1%Z, "b");
        ("Pro", "Concurrent", 2%Z, "x")].
Proof.
  split; [|split; reflexivity].
  unfold sectioned. intros H. rewrite Forall_forall in H.
  discriminate (H "fooUser2=x"). vm_compute. auto.
Qed.

(* ===================================================================== *)
(** ** Further properties: the parser *)
(* ===================================================================== *)

Lemma parse_assignment_fields (ctx ctx' : ParseCtx) (n : Z) (active : bool)
    (p d u : string) (e : LicenseEntry) :
  parse_assignment ctx n active p d u = (ctx', Some e) ->
  line_number e = n /\ index e = int_of_digits d /\ user_id e = strip u.
Proof.
  unfold parse_assignment. destruct (strip u =? ""); [discriminate|].
  destruct (if startswith "concurrent" (lower p) then _ else _) as [[c0 a0] p0].
  destruct (match c0, p0 with | None, Some _ => _ | _, _ => _ end) as [c1 p1].
  destruct (or_else (or_else c1 _) _); [|discriminate].
  destruct (or_else a0 _); [|discriminate].
  intros [= _ <-]. auto.
Qed.

Lemma parse_line_entry (ctx ctx' : ParseCtx) (n : Z) (raw : string) (e : LicenseEntry) :
  parse_line ctx n raw = (ctx', Some e) ->
  line_number e = n
  /\ contains "=" (strip raw) = true
  /\ is_active e = negb (startswith "#" (strip raw)).
Proof.
  unfold parse_line.
  destruct (strip raw =? ""); [discriminate|].
  destruct (startswith SECTION_HEADER (strip raw)); [discriminate|].
  destruct (startswith NAMED_HEADER (strip raw)); [discriminate|].
  destruct (startswith CONCURRENT_HEADER (strip raw)); [discriminate|].
  destruct (contains "=" (strip raw)); [|discriminate].
  destruct (match_assignment _) as [[[p d] u]|]; [|discriminate].
  intros H. split; [|split; auto].
  - now destruct (parse_assignment_fields _ _ _ _ _ _ _ _ H).
  - now apply parse_assignment_active in H.
Qed.

Lemma parse_lines_provenance (lines : list string) :
  forall (ctx : ParseCtx) (n : Z) (e : LicenseEntry),
    In e (parse_lines ctx n lines) ->
    exists (i : nat) (raw : string),
      nth_error lines i = Some raw
      /\ line_number e = (n + Z.of_nat i)%Z
      /\ contains "=" (strip raw) = true
      /\ is_active e = negb (startswith "#" (strip raw)).
Proof.
  induction lines as [|raw rest IH]; intros ctx n e; simpl; [intros []|].
  destruct (parse_line ctx n raw) as [ctx' r] eqn:P.
  assert (Hrest : In e (parse_lines ctx' (n + 1) rest) ->
                  exists i raw0, nth_error (raw :: rest) i = Some raw0
                    /\ line_number e = (n + Z.of_nat i)%Z
                    /\ contains "=" (strip raw0) = true
                    /\ is_active e = negb (startswith "#" (strip raw0))).
  { intros H. destruct (IH _ _ _ H) as (i & raw0 & Hn & Hl & Hc & Ha).
    exists (S i), raw0. repeat split; auto. rewrite Hl. lia. }
  destruct r as [e0|]; [|exact Hrest].
  intros [<-|H]; [|now apply Hrest].
  destruct (parse_line_entry _ _ _ _ _ P) as (Hl & Hc & Ha).
  exists 0%nat, raw. repeat split; auto. rewrite Hl. simpl. lia.
Qed.

Lemma parse_lines_numbers_from (lines : list string) :
  forall (ctx : ParseCtx) (n : Z),
    Forall (fun e => (n <= line_number e)%Z) (parse_lines ctx n lines).
Proof.
  induction lines as [|raw rest IH]; intros ctx n; simpl; [constructor|].
  destruct (parse_line ctx n raw) as [ctx' r] eqn:P.
  assert (Hrest : Forall (fun e => (n <= line_number e)%Z)
                         (parse_lines ctx' (n + 1) rest)).
  { eapply Forall_impl; [|apply IH]. simpl. intros; lia. }
  destruct r as [e0|]; [|exact Hrest].
  constructor; [|exact Hrest].
  destruct (parse_line_entry _ _ _ _ _ P) as (Hl & _). lia.
Qed.

(** X1.  Every entry that the parser makes has one of the five categories,
    the mode Named or Concurrent, an index that is not negative, and a user
    id that is not empty, has no white space at either end and no line
    feed. *)
Theorem X1_parsed_entries_well_formed :
  forall (m : Manager) (config_text : string) (e : LicenseEntry),
    In e (license_entries (fst (parse_license_configuration m config_text))) ->
    In (license_type e) ["ALM"; "QA"; "Requirements"; "Pro"; "Reviewer"]
    /\ (assignment_type e = "Named" \/ assignment_type e = "Concurrent")
    /\ (0 <= index e)%Z
    /\ user_id e <> ""
    /\ strip (user_id e) = user_id e
    /\ contains NL (user_id e) = false.
Proof.
  intros m config_text e He. simpl in He.
  pose proof (parse_text_wf config_text) as W. rewrite Forall_forall in W.
  destruct (W e He) as (Hl & Ha & Hi & Hls & Hrs & Hne & Hnl).
  repeat split; auto.
  - unfold strip. now rewrite Hrs.
  - clear - Hnl. induction (user_id e) as [|c r IH]; [reflexivity|].
    simpl in Hnl. apply andb_true_iff in Hnl. destruct Hnl as [Hc Hr].
    change (contains NL (String c r))
      with (String.prefix NL (String c r) || contains NL r).
    rewrite (IH Hr), orb_false_r.
    unfold not_newline in Hc. apply negb_true_iff in Hc.
    apply Ascii.eqb_neq in Hc. unfold NL. apply prefix_head_neq. congruence.
Qed.

Lemma X1_witness :
  In (mkEntry "QA" "Named" 1 "yossira" 11 true)
     (license_entries (fst (parse_license_configuration empty_manager sample_config)))
  /\ strip "yossira" = "yossira".
Proof.
  assert (H : In (mkEntry "QA" "Named" 1 "yossira" 11 true)
                 (license_entries
                    (fst (parse_license_configuration empty_manager sample_config))))
    by (vm_compute; do 4 right; left; reflexivity).
  split; [exact H|].
  exact (proj1 (proj2 (proj2 (proj2 (proj2
           (X1_parsed_entries_well_formed empty_manager sample_config _ H)))))).
Defined.

(** X2.  Every parsed entry carries the number of the line it was read from:
    that line exists, contains [=], and the entry is active exactly when the
    line, stripped, does not start with the comment sign.  The entries are in
    the order of the lines. *)
Theorem X2_parsed_entries_come_from_their_lines :
  forall config_text : string,
    (forall e, In e (parse_text config_text) ->
       exists raw,
         line_at (split newline config_text) (line_number e) = Some raw
         /\ contains "=" (strip raw) = true
         /\ is_active e = negb (startswith "#" (strip raw)))
    /\ (forall before e1 between e2 after,
          parse_text config_text = (before ++ e1 :: between ++ e2 :: after)%list ->
          (line_number e1 < line_number e2)%Z).
Proof.
  intros config_text. split.
  - intros e He. destruct (parse_lines_provenance _ _ _ _ He) as (i & raw & Hn & Hl & Hc & Ha).
    exists raw. repeat split; auto. unfold line_at. rewrite Hl.
    destruct (Z.leb_spec 1 (1 + Z.of_nat i)); [|lia].
    replace (Z.to_nat (1 + Z.of_nat i - 1)) with i by lia. exact Hn.
  - unfold parse_text. generalize (split newline config_text) ctx0 1%Z.
    intros lines. induction lines as [|raw rest IH]; intros ctx n before e1 between e2 after.
    + simpl. intros H. destruct before; discriminate.
    + simpl. destruct (parse_line ctx n raw) as [ctx' r] eqn:P.
      destruct r as [e0|]; [|apply IH].
      destruct before as [|b0 before]; simpl; intros [= E0 E].
      * subst e0. destruct (parse_line_entry _ _ _ _ _ P) as (Hl & _).
        pose proof (parse_lines_numbers_from rest ctx' (n + 1)) as F.
        rewrite E, Forall_forall in F.
        assert (n + 1 <= line_number e2)%Z
          by (apply F; apply in_or_app; right; now left).
        lia.
      * eapply IH; eauto.
Qed.

Lemma X2_witness :
  exists raw,
    line_at (split newline sample_config) 11 = Some raw
    /\ contains "=" (strip raw) = true
    /\ true = negb (startswith "#" (strip raw)).
Proof.
  apply (proj1 (X2_parsed_entries_come_from_their_lines sample_config)
               (mkEntry "QA" "Named" 1 "yossira" 11 true)).
  vm_compute. do 4 right. left. reflexivity.
Defined.

Lemma no_newline_forall (s : string) :
  contains NL s = false -> forall_str not_newline s = true.
Proof.
  induction s as [|c r IH]; [reflexivity|].
  change (contains NL (String c r))
    with (String.prefix NL (String c r) || contains NL r).
  intros H. apply orb_false_iff in H. destruct H as [Hp Hr].
  simpl. rewrite (IH Hr), andb_true_r. unfold not_newline.
  destruct (Ascii.eqb_spec c newline) as [->|]; [|reflexivity].
  unfold NL in Hp. now rewrite prefix_head_eq, prefix_empty in Hp.
Qed.

Lemma strip_fixed_rstrip (s : string) : strip s = s -> rstrip s = s.
Proof. intros H. rewrite <- H at 1. rewrite rstrip_strip. exact H. Qed.

Lemma parse_assignment_rendered_ctx (ctx : ParseCtx) (n : Z) (atype ltype d u : string) :
  In ltype license_categories ->
  atype = "Named" \/ atype = "Concurrent" ->
  strip u = u -> u <> "" ->
  fst (parse_assignment ctx n true (prefix_of atype ltype) d u)
  = mkCtx (current_category ctx) (current_assignment_type ctx) (Some ltype).
Proof.
  intros Hl Ha Hs Hu. unfold parse_assignment.
  rewrite Hs. destruct (String.eqb_spec u "") as [|_]; [contradiction|].
  destruct ctx as [cat mode part].
  simpl in Hl.
  destruct Hl as [<-|[<-|[<-|[<-|[<-|[]]]]]]; destruct Ha as [->| ->]; reflexivity.
Qed.

(** X3.  A line in the documented format, mode, category, [User], slot
    number, [=], user id, is parsed into the active entry with exactly that
    category, mode, slot and user, whatever section and subsection it stands
    in and whatever was parsed before. *)
Theorem X3_documented_line_parsed_in_any_context :
  forall (ctx : ParseCtx) (n : Z) (atype ltype : string) (idx : Z) (uid : string),
    In ltype license_categories ->
    atype = "Named" \/ atype = "Concurrent" ->
    (0 <= idx)%Z ->
    strip uid = uid -> uid <> "" -> contains NL uid = false ->
    snd (parse_line ctx n (assignment_line atype ltype idx uid))
    = Some (mkEntry ltype atype idx uid n true).
Proof.
  intros ctx n atype ltype idx uid Hl Ha Hi Hs Hne Hnl.
  destruct (str_of_int_spec _ Hi) as (Hd & Hd0 & Hint).
  destruct (parse_assignment_rendered ctx n atype ltype (str_of_int idx) uid
              Hl Ha Hs Hne) as [Hp Hsnd].
  rewrite assignment_line_eq, parse_line_rendered;
    auto using no_newline_forall, strip_fixed_rstrip.
  now rewrite Hsnd, Hint.
Qed.

Lemma X3_witness :
  snd (parse_line (mkCtx (Some "ALM") (Some "Concurrent") (Some "Pro")) 7
                  (assignment_line "Named" "QA" 12 "bob"))
  = Some (mkEntry "QA" "Named" 12 "bob" 7 true).
Proof.
  apply X3_documented_line_parsed_in_any_context; try reflexivity.
  - simpl. auto.
  - now left.
  - lia.
  - discriminate.
Defined.

(** X4.  After a line in the documented format, a line whose prefix names
    neither a mode nor a category is given the category of that previous
    line, not the category of the section, and the mode Concurrent: the
    parser's [category_part] is still set from the previous line. *)
Theorem X4_plain_prefix_takes_previous_category :
  forall (ctx : ParseCtx) (n : Z) (atype ltype : string) (idx : Z)
         (uid p d u : string),
    In ltype license_categories ->
    atype = "Named" \/ atype = "Concurrent" ->
    (0 <= idx)%Z ->
    strip uid = uid -> uid <> "" -> contains NL uid = false ->
    good_prefix p = true -> plain_prefix p = true ->
    forall_str is_digit d = true -> d <> "" ->
    strip u = u -> u <> "" -> contains NL u = false ->
    parse_lines ctx n [assignment_line atype ltype idx uid; p ++ d ++ "=" ++ u]
    = [mkEntry ltype atype idx uid n true;
       mkEntry ltype "Concurrent" (int_of_digits d) u (n + 1) true].
Proof.
  intros ctx n atype ltype idx uid p d u Hl Ha Hi Hs Hne Hnl Hp Hplain Hd Hd0
         Hsu Hu0 Hunl.
  destruct (str_of_int_spec _ Hi) as (Hdi & Hdi0 & Hint).
  destruct (parse_assignment_rendered ctx n atype ltype (str_of_int idx) uid
              Hl Ha Hs Hne) as [Hgp Hsnd].
  pose proof (parse_assignment_rendered_ctx ctx n atype ltype (str_of_int idx) uid
                Hl Ha Hs Hne) as Hfst.
  unfold parse_lines.
  rewrite assignment_line_eq, parse_line_rendered;
    auto using no_newline_forall, strip_fixed_rstrip.
  destruct (parse_assignment ctx n true (prefix_of atype ltype) (str_of_int idx) uid)
    as [ctx' r]. simpl in Hsnd, Hfst. subst ctx' r. rewrite Hint.
  change ("=" ++ u) with (String "=" u).
  rewrite parse_line_rendered; auto using no_newline_forall, strip_fixed_rstrip.
  unfold plain_prefix in Hplain.
  apply andb_true_iff in Hplain. destruct Hplain as [Hplain H3].
  apply andb_true_iff in Hplain. destruct Hplain as [H1 H2].
  apply negb_true_iff in H1, H2, H3.
  unfold parse_assignment. rewrite Hsu.
  destruct (String.eqb_spec u "") as [|_]; [contradiction|].
  rewrite H1, H2.
  destruct (first_category (fun c => contains (lower c) (lower p)));
    [discriminate|].
  simpl category_part. cbv iota beta zeta.
  assert (E : first_category (fun c => lower c =? lower (replace "User" "" ltype))
              = Some ltype).
  { simpl in Hl. destruct Hl as [<-|[<-|[<-|[<-|[<-|[]]]]]]; reflexivity. }
  rewrite E. reflexivity.
Qed.

Lemma X4_witness :
  parse_lines (mkCtx (Some "ALM") (Some "Named") None) 3
              [assignment_line "Named" "QA" 1 "bob"; "fooUser" ++ "2" ++ "=" ++ "eve"]
  = [mkEntry "QA" "Named" 1 "bob" 3 true;
     mkEntry "QA" "Concurrent" (int_of_digits "2") "eve" (3 + 1) true].
Proof.
  apply X4_plain_prefix_takes_previous_category; try reflexivity.
  - simpl. auto.
  - now left.
  - lia.
  - discriminate.
  - discriminate.
  - discriminate.
Defined.

(* ===================================================================== *)
(** ** Further properties: the license table, stale entries, validation *)
(* ===================================================================== *)

Lemma dict_get_in {V : Type} (k : string) (v : V) (d : sdict V) :
  dict_get String.eqb k d = Some v -> In (k, v) d.
Proof.
  induction d as [|[k' v'] r IH]; simpl; [discriminate|].
  destruct (String.eqb_spec k' k) as [->|_].
  - intros [= ->]. now left.
  - intros H. right. now apply IH.
Qed.

Lemma table_add_sound (all : list LicenseEntry) (t : Table) (x : LicenseEntry) :
  In x all ->
  (forall k l e, table_get k t = Some l -> In e l ->
     In e all /\ is_active e = true /\ (k = lower (user_id e) \/ k = user_id e)) ->
  forall k l e, table_get k (table_add t x) = Some l -> In e l ->
    In e all /\ is_active e = true /\ (k = lower (user_id e) \/ k = user_id e).
Proof.
  intros Hx H k l e. unfold table_add.
  destruct (is_active x) eqn:A; [|apply H].
  destruct (dict_mem String.eqb (lower (user_id x)) t); unfold table_get in *.
  - destruct (String.eqb_spec (lower (user_id x)) k) as [<-|Hne].
    + rewrite get_update_same.
      destruct (dict_get String.eqb (lower (user_id x)) t) as [l0|] eqn:G;
        [|discriminate].
      intros [= <-] He. apply in_app_iff in He. destruct He as [He|[<-|[]]].
      * eapply H; eauto.
      * auto.
    + rewrite get_update_other by exact Hne. apply H.
  - destruct (String.eqb_spec (user_id x) k) as [<-|Hne].
    + rewrite get_set_same. intros [= <-] [<-|[]]. auto.
    + rewrite get_set_other by exact Hne. apply H.
Qed.

Lemma build_table_sound (us : sdict User.t) (entries : list LicenseEntry) :
  forall k l e,
    table_get k (build_table us entries) = Some l -> In e l ->
    In e entries /\ is_active e = true /\ (k = lower (user_id e) \/ k = user_id e).
Proof.
  unfold build_table.
  assert (G : forall l0 t,
             (forall x, In x l0 -> In x entries) ->
             (forall k l e, table_get k t = Some l -> In e l ->
                In e entries /\ is_active e = true
                /\ (k = lower (user_id e) \/ k = user_id e)) ->
             forall k l e, table_get k (fold_left table_add l0 t) = Some l -> In e l ->
               In e entries /\ is_active e = true
               /\ (k = lower (user_id e) \/ k = user_id e)).
  { induction l0 as [|x r IH]; intros t Hin Ht; simpl; [exact Ht|].
    apply IH.
    - intros y Hy. apply Hin. now right.
    - apply table_add_sound; auto. apply Hin. now left. }
  apply G; auto. intros k l e Hl He. rewrite table_init_get in Hl.
  destruct (dict_mem String.eqb k us); [|discriminate].
  injection Hl as <-. destruct He.
Qed.

(** X5.  A list of the license table holds only active entries of the
    entry list, and the key of the list is the user id of each of them,
    lower-cased or as written.  Every key of the directory is a key of the
    table. *)
Theorem X5_table_lists_hold_active_entries :
  forall (m : Manager),
    (forall k l e,
        table_get k (build_combined_user_license_table m) = Some l -> In e l ->
        In e (license_entries m) /\ is_active e = true
        /\ (k = lower (user_id e) \/ k = user_id e))
    /\ (forall k, dict_mem String.eqb k (users m) = true ->
                  dict_mem String.eqb k (build_combined_user_license_table m) = true).
Proof.
  intros m. split.
  - apply build_table_sound.
  - intros k Hk. unfold build_combined_user_license_table, build_table.
    apply fold_keeps_mem. apply mem_iff_get.
    fold (table_get k (table_init (users m))). rewrite table_init_get, Hk. eauto.
Qed.

Lemma X5_witness :
  In (entry "ALM" "Named" 2 "Bob") (license_entries bob_named_alm)
  /\ is_active (entry "ALM" "Named" 2 "Bob") = true
  /\ ("bob" = lower (user_id (entry "ALM" "Named" 2 "Bob"))
      \/ "bob" = user_id (entry "ALM" "Named" 2 "Bob")).
Proof.
  apply (proj1 (X5_table_lists_hold_active_entries bob_named_alm) "bob"
               [entry "ALM" "Named" 2 "Bob"] (entry "ALM" "Named" 2 "Bob")).
  - reflexivity.
  - now left.
Defined.

Lemma table_list_of_directory_user (m : Manager) (k : string) :
  lower k = k ->
  dict_mem String.eqb k (users m) = true ->
  table_get k (build_combined_user_license_table m)
  = Some (active_entries_of k (license_entries m)).
Proof.
  intros Hk Hm. unfold build_combined_user_license_table.
  rewrite (table_get_directory _ _ _ Hk Hm). unfold active_entries_of.
  now rewrite Hk.
Qed.

(** X6.  For a lower-case key of the directory, the list of the table is
    the list of the active entries of that user, user ids compared without
    case, in the order of the entry list. *)
Theorem X6_table_list_of_directory_user :
  forall (m : Manager) (k : string),
    lower k = k ->
    dict_mem String.eqb k (users m) = true ->
    table_get k (build_combined_user_license_table m)
    = Some (active_entries_of k (license_entries m)).
Proof. intros m k. apply table_list_of_directory_user. Qed.

Lemma X6_witness :
  table_get "bob" (build_combined_user_license_table bob_named_alm)
  = Some (active_entries_of "bob" (license_entries bob_named_alm)).
Proof.
  apply X6_table_list_of_directory_user; reflexivity.
Defined.

(** X7.  Stale detection.  An active entry is either reported by
    [find_inactive_users_with_licenses], when its lower-cased user id is not
    a key of the directory, or it is in the table's list of its lower-cased
    user id; an entry that is reported is in the list of no lower-case
    directory key. *)
Theorem X7_stale_entries_are_reported_not_filed :
  forall (m : Manager) (e : LicenseEntry),
    In e (license_entries m) ->
    is_active e = true ->
    (In e (find_inactive_users_with_licenses m)
     <-> dict_mem String.eqb (lower (user_id e)) (users m) = false)
    /\ (In e (find_inactive_users_with_licenses m) ->
        forall k, lower k = k -> dict_mem String.eqb k (users m) = true ->
                  ~ In e (table_get_default k (build_combined_user_license_table m)))
    /\ (~ In e (find_inactive_users_with_licenses m) ->
        In e (table_get_default (lower (user_id e))
                                (build_combined_user_license_table m))).
Proof.
  intros m e He A.
  assert (R : In e (find_inactive_users_with_licenses m)
              <-> dict_mem String.eqb (lower (user_id e)) (users m) = false).
  { unfold find_inactive_users_with_licenses. rewrite filter_In, A. simpl.
    rewrite negb_true_iff. tauto. }
  split; [exact R|split].
  - intros Hs k Hk Hm Hin. apply R in Hs. unfold table_get_default in Hin.
    rewrite (table_list_of_directory_user m k Hk Hm) in Hin.
    apply filter_In in Hin. destruct Hin as [_ Hin].
    apply andb_true_iff in Hin. destruct Hin as [_ E]. apply String.eqb_eq in E.
    rewrite Hk in E. rewrite E, Hm in Hs. discriminate.
  - intros Hn. destruct (dict_mem String.eqb (lower (user_id e)) (users m)) eqn:M.
    + unfold table_get_default.
      rewrite (table_list_of_directory_user m _ (lower_idem _) M).
      apply filter_In. split; auto. rewrite A, lower_idem. apply String.eqb_refl.
    + destruct Hn. now apply R.
Qed.

Lemma X7_witness :
  In (entry "ALM" "Named" 1 "Bob") (find_inactive_users_with_licenses stale_Bob)
  <-> dict_mem String.eqb (lower "Bob") (users stale_Bob) = false.
Proof.
  apply (proj1 (X7_stale_entries_are_reported_not_filed stale_Bob
                  (entry "ALM" "Named" 1 "Bob") (or_introl eq_refl) eq_refl)).
Defined.

Lemma flat_map_nil {A B : Type} (f : A -> list B) (l : list A) :
  flat_map f l = [] -> forall x, In x l -> f x = [].
Proof.
  induction l as [|y r IH]; simpl; [intros _ x []|].
  intros H x [<-|Hx]; apply app_eq_nil in H; destruct H; auto.
Qed.

Lemma filter_active_entries_of (uid : string) (l : list LicenseEntry) :
  filter is_active (active_entries_of uid l) = active_entries_of uid l.
Proof.
  unfold active_entries_of. induction l as [|e r IH]; simpl; auto.
  destruct (is_active e) eqn:A; simpl; auto.
  destruct (lower (user_id e) =? lower uid); simpl; auto.
  now rewrite A, IH.
Qed.

(** X8.  When [validate_changes] reports nothing, no user has two active
    entries (user ids compared without case) and no active entry is stale. *)
Theorem X8_validation_without_errors :
  forall m : Manager,
    validate_changes m = [] ->
    one_license_per_user (license_entries m)
    /\ find_inactive_users_with_licenses m = [].
Proof.
  intros m H. unfold validate_changes in H. apply app_eq_nil in H.
  destruct H as [H1 H2].
  assert (Hs : forall e, In e (license_entries m) -> is_active e = true ->
                         dict_mem String.eqb (lower (user_id e)) (users m) = true).
  { intros e He A. pose proof (flat_map_nil _ _ H2 e He) as F. simpl in F.
    rewrite A in F. simpl in F.
    destruct (dict_mem String.eqb (lower (user_id e)) (users m)); [auto|discriminate]. }
  split.
  - intros uid. destruct (active_entries_of uid (license_entries m)) as [|e r] eqn:E;
      [simpl; lia|].
    assert (He : In e (active_entries_of uid (license_entries m)))
      by (rewrite E; now left).
    apply filter_In in He. destruct He as [He Hp].
    apply andb_true_iff in Hp. destruct Hp as [A Hl]. apply String.eqb_eq in Hl.
    pose proof (Hs e He A) as M. rewrite Hl in M.
    pose proof (table_list_of_directory_user m _ (lower_idem uid) M) as T.
    apply dict_get_in in T. pose proof (flat_map_nil _ _ H1 _ T) as F. simpl in F.
    rewrite filter_active_entries_of in F.
    assert (Q : active_entries_of (lower uid) (license_entries m)
                = active_entries_of uid (license_entries m)).
    { unfold active_entries_of. now rewrite lower_idem. }
    rewrite Q, E in F. rewrite <- E.
    rewrite E. destruct (1 <? List.length (e :: r))%nat eqn:L; [discriminate|].
    apply Nat.ltb_ge in L. exact L.
  - unfold find_inactive_users_with_licenses.
    induction (license_entries m) as [|e r IH]; [reflexivity|]. simpl.
    destruct (is_active e) eqn:A; simpl.
    + rewrite (Hs e (or_introl eq_refl) A). simpl. apply IH.
      * simpl in H2. now apply app_eq_nil in H2.
      * intros x Hx. apply Hs. now right.
    + apply IH.
      * simpl in H2. now apply app_eq_nil in H2.
      * intros x Hx. apply Hs. now right.
Qed.

Lemma X8_witness :
  one_license_per_user (license_entries slots_124)
  /\ find_inactive_users_with_licenses slots_124 = [].
Proof. apply X8_validation_without_errors. reflexivity. Defined.

Lemma dict_set_keys {V : Type} (k k' : string) (v : V) (d : sdict V) :
  In k' (map fst (dict_set String.eqb k v d)) <-> k' = k \/ In k' (map fst d).
Proof.
  induction d as [|[a b] r IH]; simpl.
  - split; intros [H|H]; auto.
  - destruct (String.eqb_spec a k) as [->|Hne]; simpl.
    + split; intros H; intuition.
    + rewrite IH. split; intros H; intuition.
Qed.

Lemma dict_set_nodup {V : Type} (k : string) (v : V) (d : sdict V) :
  NoDup (map fst d) -> NoDup (map fst (dict_set String.eqb k v d)).
Proof.
  induction d as [|[a b] r IH]; simpl; intros H.
  - constructor; [intros []|constructor].
  - inversion H as [|? ? Hnin Hr]; subst.
    destruct (String.eqb_spec a k) as [->|Hne]; simpl.
    + now constructor.
    + constructor; [|now apply IH]. rewrite dict_set_keys.
      intros [->|Hin]; contradiction.
Qed.

Lemma dict_update_keys {V : Type} (k : string) (f : V -> V) (d : sdict V) :
  map fst (dict_update String.eqb k f d) = map fst d.
Proof.
  induction d as [|[a b] r IH]; simpl; [reflexivity|].
  destruct (a =? k); simpl; [reflexivity|now rewrite IH].
Qed.

Lemma in_dict_get {V : Type} (k : string) (v : V) (d : sdict V) :
  NoDup (map fst d) -> In (k, v) d -> dict_get String.eqb k d = Some v.
Proof.
  induction d as [|[a b] r IH]; simpl; intros Hn; [intros []|].
  inversion Hn as [|? ? Hnin Hr]; subst. intros [[= -> ->]|H].
  - now rewrite String.eqb_refl.
  - destruct (String.eqb_spec a k) as [->|_]; [|auto].
    destruct Hnin. change k with (fst (k, v)). now apply in_map.
Qed.

Lemma build_table_nodup (us : sdict User.t) (entries : list LicenseEntry) :
  NoDup (map fst (build_table us entries)).
Proof.
  unfold build_table.
  assert (I : NoDup (map fst (table_init us))).
  { unfold table_init.
    assert (G : forall (t : Table),
               NoDup (map fst t) ->
               NoDup (map fst (fold_left
                                 (fun t kv => dict_set String.eqb (fst kv) [] t) us t))).
    { induction us as [|[k u] r IH]; intros t Ht; simpl; [exact Ht|].
      apply IH. now apply dict_set_nodup. }
    apply G. constructor. }
  revert I. generalize (table_init us).
  induction entries as [|e r IH]; intros t Ht; simpl; [exact Ht|].
  apply IH. unfold table_add. destruct (is_active e); [|exact Ht].
  destruct (dict_mem String.eqb (lower (user_id e)) t).
  - now rewrite dict_update_keys.
  - now apply dict_set_nodup.
Qed.

(** X9.  What [validate_changes] reports is real.  A report of multiple
    licenses for a key lists at least two entries, all active, all in the
    entry list and all of the user the key names (the key is the user id of
    each, lower-cased or as written).  A report of a non-existent user
    comes from an active entry with that user id whose lower-cased user id
    is not a key of the directory. *)
Theorem X9_validation_errors_are_real :
  forall (m : Manager),
    (forall k es,
        In (MultipleActive k es) (validate_changes m) ->
        (2 <= List.length es)%nat
        /\ forall e, In e es ->
             In e (license_entries m) /\ is_active e = true
             /\ (k = lower (user_id e) \/ k = user_id e))
    /\ (forall uid,
          In (NonExistentUser uid) (validate_changes m) ->
          exists e, In e (license_entries m) /\ is_active e = true
                    /\ user_id e = uid
                    /\ dict_mem String.eqb (lower uid) (users m) = false).
Proof.
  intros m. unfold validate_changes. split.
  - intros k es H. apply in_app_iff in H. destruct H as [H|H].
    + apply in_flat_map in H. destruct H as ([k' l] & Hin & H). simpl in H.
      destruct (1 <? List.length (filter is_active l))%nat eqn:L; [|destruct H].
      destruct H as [[= <- <-]|[]]. apply Nat.ltb_lt in L. split; [lia|].
      intros e He. apply filter_In in He. destruct He as [He _].
      apply (build_table_sound (users m) (license_entries m) k' l e); auto.
      apply in_dict_get; auto. apply build_table_nodup.
    + apply in_flat_map in H. destruct H as (e & _ & H).
      destruct (is_active e && _); [destruct H as [H|[]]|destruct H]; discriminate.
  - intros uid H. apply in_app_iff in H. destruct H as [H|H].
    + apply in_flat_map in H. destruct H as ([k l] & _ & H). simpl in H.
      destruct (1 <? _)%nat; [destruct H as [H|[]]|destruct H]; discriminate.
    + apply in_flat_map in H. destruct H as (e & He & H).
      destruct (is_active e) eqn:A; simpl in H; [|destruct H].
      destruct (dict_mem String.eqb (lower (user_id e)) (users m)) eqn:M;
        simpl in H; [destruct H|].
      destruct H as [[= <-]|[]]. exists e. auto.
Qed.

Lemma X9_witness :
  (2 <= List.length [entry "ALM" "Named" 1 "ann"; entry "QA" "Concurrent" 1 "Ann"])%nat
  /\ forall e,
       In e [entry "ALM" "Named" 1 "ann"; entry "QA" "Concurrent" 1 "Ann"] ->
       In e (license_entries ann_twice) /\ is_active e = true
       /\ ("ann" = lower (user_id e) \/ "ann" = user_id e).
Proof.
  apply (proj1 (X9_validation_errors_are_real ann_twice) "ann").
  vm_compute. now left.
Defined.

(* ===================================================================== *)
(** ** Further properties: the query *)
(* ===================================================================== *)

Lemma active_entries_of_lower (uid : string) (l : list LicenseEntry) :
  active_entries_of (lower uid) l = active_entries_of uid l.
Proof. unfold active_entries_of. now rewrite lower_idem. Qed.

Lemma query_one_directory_user (m : Manager) (s1 s2 : Stats) (identifier : string)
    (u : User.t) :
  find_user_by_identifier m identifier = Some u ->
  dict_mem String.eqb (lower (User.user_id u)) (users m) = true ->
  let r := query_one m (build_combined_user_license_table m) s1 s2 identifier in
  let mine := active_entries_of (User.user_id u) (license_entries m) in
  r_user r = Some u
  /\ (mine = [] -> r_status r = "no_license" /\ r_licenses r = None)
  /\ (mine <> [] ->
      r_status r = "has_license" /\ r_licenses r = Some (rendered_licenses mine)).
Proof.
  intros F M. unfold query_one. rewrite F. unfold table_get_default.
  rewrite (table_list_of_directory_user m _ (lower_idem _) M), active_entries_of_lower.
  destruct (active_entries_of (User.user_id u) (license_entries m)) as [|e r] eqn:E.
  - simpl. split; [reflexivity|]. split; [auto|]. intros H. now destruct H.
  - rewrite <- E, filter_active_entries_of, E. simpl.
    repeat split; auto; discriminate.
Qed.

(** X10.  The result of the query for an identifier that resolves to a user
    of the directory: its status is [no_license] when the user has no active
    entry, and otherwise [has_license] with the rendered lines of the user's
    active entries, in the order of the entry list. *)
Theorem X10_query_result_of_directory_user :
  forall (m : Manager) (identifiers : list string) (i : nat) (identifier : string)
         (u : User.t),
    nth_error identifiers i = Some identifier ->
    find_user_by_identifier m identifier = Some u ->
    dict_mem String.eqb (lower (User.user_id u)) (users m) = true ->
    exists r,
      nth_error (query_user_licenses m identifiers) i = Some r
      /\ r_identifier r = identifier
      /\ r_user r = Some u
      /\ (active_entries_of (User.user_id u) (license_entries m) = [] ->
          r_status r = "no_license" /\ r_licenses r = None)
      /\ (active_entries_of (User.user_id u) (license_entries m) <> [] ->
          r_status r = "has_license"
          /\ r_licenses r
             = Some (rendered_licenses
                       (active_entries_of (User.user_id u) (license_entries m)))).
Proof.
  intros m identifiers i identifier u Hn F M. unfold query_user_licenses.
  eexists. split; [apply map_nth_error; exact Hn|].
  split; [apply query_one_status|].
  apply (query_one_directory_user m _ _ identifier u F M).
Qed.

Lemma X10_witness :
  exists r,
    nth_error (query_user_licenses ann_twice ["bob"; " ANN "]) 1 = Some r
    /\ r_identifier r = " ANN "
    /\ r_user r = Some (user_of "ann")
    /\ (active_entries_of "ann" (license_entries ann_twice) = [] ->
        r_status r = "no_license" /\ r_licenses r = None)
    /\ (active_entries_of "ann" (license_entries ann_twice) <> [] ->
        r_status r = "has_license"
        /\ r_licenses r
           = Some (rendered_licenses
                     (active_entries_of "ann" (license_entries ann_twice)))).
Proof.
  apply (X10_query_result_of_directory_user ann_twice ["bob"; " ANN "] 1 " ANN "
           (user_of "ann")); reflexivity.
Defined.

(** X11.  The query never answers [no_active_license]: the lists of the
    table hold active entries only.  It answers [not_found] exactly when the
    directory lookup finds no user, and a [has_license] result has at least
    one rendered license. *)
Theorem X11_query_statuses :
  forall (m : Manager) (identifiers : list string) (r : QueryResult),
    In r (query_user_licenses m identifiers) ->
    r_status r <> "no_active_license"
    /\ (r_status r = "not_found"
        <-> find_user_by_identifier m (r_identifier r) = None)
    /\ (r_status r = "has_license" ->
        exists x l, r_licenses r = Some (x :: l)).
Proof.
  intros m identifiers r Hr. unfold query_user_licenses in Hr.
  apply in_map_iff in Hr. destruct Hr as (i & <- & _).
  unfold query_one.
  destruct (find_user_by_identifier m i) as [u|] eqn:F; cycle 1.
  { simpl. rewrite F. repeat split; auto; discriminate. }
  unfold table_get_default.
  destruct (table_get (lower (User.user_id u)) (build_combined_user_license_table m))
    as [[|e l]|] eqn:T.
  - simpl. rewrite F. repeat split; try discriminate.
  - assert (A : is_active e = true).
    { apply (build_table_sound _ _ _ _ e T). now left. }
    simpl filter. rewrite A. simpl. rewrite F. repeat split; try discriminate. eauto.
  - simpl. rewrite F. repeat split; try discriminate.
Qed.

Lemma X11_witness :
  r_status (query_one stale_Bob (build_combined_user_license_table stale_Bob)
                      [] [] "Bob") = "not_found"
  <-> find_user_by_identifier stale_Bob "Bob" = None.
Proof.
  apply (X11_query_statuses stale_Bob ["Bob"]
           (query_one stale_Bob (build_combined_user_license_table stale_Bob)
                      [] [] "Bob")).
  vm_compute. now left.
Defined.






(* ===================================================================== *)
(** ** Further properties: the directory lookup *)
(* ===================================================================== *)

Lemma dict_get_value {V : Type} (k : string) (v : V) (d : sdict V) :
  dict_get String.eqb k d = Some v -> In v (dict_values d).
Proof.
  intros H. apply dict_get_in in H. unfold dict_values.
  change v with (snd (k, v)). now apply in_map.
Qed.

(** X13.  The directory lookup invents nothing and does not guess.  The user
    it returns is a value of the directory, and matches the identifier,
    stripped and lower-cased: it is the value of that key, or else its
    lower-cased email or full name is the identifier, or else it is the only
    user of the directory whose lower-cased full name or user id contains
    the identifier. *)
Theorem X13_lookup_returns_a_matching_directory_user :
  forall (m : Manager) (identifier : string) (u : User.t),
    find_user_by_identifier m identifier = Some u ->
    In u (dict_values (users m))
    /\ (dict_get String.eqb (lower (strip identifier)) (users m) = Some u
        \/ (dict_get String.eqb (lower (strip identifier)) (users m) = None
            /\ (lower (User.email u) = lower (strip identifier)
                \/ lower (User.full_name u) = lower (strip identifier)
                \/ (partial_match (lower (strip identifier)) u = true
                    /\ forall u', In u' (dict_values (users m)) ->
                         partial_match (lower (strip identifier)) u' = true ->
                         u' = u)))).
Proof.
  intros m identifier u. unfold find_user_by_identifier.
  set (i := lower (strip identifier)).
  destruct (dict_get String.eqb i (users m)) as [u0|] eqn:G.
  { intros [= ->]. split; [eapply dict_get_value; eauto|now left]. }
  destruct (find _ (dict_values (users m))) as [u1|] eqn:F1.
  { intros [= ->]. apply find_some in F1. destruct F1 as [Hin E].
    apply String.eqb_eq in E. split; auto. }
  destruct (find (fun u => lower (User.full_name u) =? i) (dict_values (users m)))
    as [u2|] eqn:F2.
  { intros [= ->]. apply find_some in F2. destruct F2 as [Hin E].
    apply String.eqb_eq in E. split; auto. }
  fold (partial_match i).
  destruct (filter (partial_match i) (dict_values (users m))) as [|x [|y r]] eqn:P;
    try discriminate.
  intros [= ->].
  assert (Hu : In u (filter (partial_match i) (dict_values (users m))))
    by (rewrite P; now left).
  apply filter_In in Hu. destruct Hu as [Hin Hp]. split; auto.
  right. split; auto. right. right. split; auto.
  intros u' Hin' Hp'.
  assert (Hu' : In u' (filter (partial_match i) (dict_values (users m))))
    by (apply filter_In; auto).
  rewrite P in Hu'. now destruct Hu' as [<-|[]].
Qed.

Lemma X13_witness :
  In (user_of "bob") (dict_values (users bob_named_alm))
  /\ (dict_get String.eqb (lower (strip "BOB@example.com")) (users bob_named_alm)
      = Some (user_of "bob")
      \/ (dict_get String.eqb (lower (strip "BOB@example.com")) (users bob_named_alm)
          = None
          /\ (lower (User.email (user_of "bob")) = lower (strip "BOB@example.com")
              \/ lower (User.full_name (user_of "bob")) = lower (strip "BOB@example.com")
              \/ (partial_match (lower (strip "BOB@example.com")) (user_of "bob") = true
                  /\ forall u', In u' (dict_values (users bob_named_alm)) ->
                       partial_match (lower (strip "BOB@example.com")) u' = true ->
                       u' = user_of "bob")))).
Proof.
  apply (X13_lookup_returns_a_matching_directory_user bob_named_alm "BOB@example.com").
  reflexivity.
Defined.

Lemma is_space_lower_char (c : ascii) : is_space (lower_char c) = is_space c.
Proof. destruct c as [[] [] [] [] [] [] [] []]; reflexivity. Qed.

Lemma lstrip_lower (s : string) : lstrip (lower s) = lower (lstrip s).
Proof.
  unfold lower. induction s as [|c r IH]; simpl; auto.
  rewrite is_space_lower_char. now destruct (is_space c).
Qed.

Lemma rstrip_lower (s : string) : rstrip (lower s) = lower (rstrip s).
Proof.
  unfold lower. induction s as [|c r IH]; simpl; auto.
  rewrite IH, is_space_lower_char.
  destruct (rstrip r); simpl; auto. now destruct (is_space c).
Qed.

Lemma strip_lower (s : string) : strip (lower s) = lower (strip s).
Proof. unfold strip. now rewrite rstrip_lower, lstrip_lower. Qed.

Lemma strip_idem (s : string) : strip (strip s) = strip s.
Proof. unfold strip at 1. now rewrite rstrip_strip, lstrip_strip. Qed.

Lemma lstrip_spaces_app (a s : string) :
  forall_str is_space a = true -> lstrip (a ++ s) = lstrip s.
Proof.
  induction a as [|c a IH]; simpl; auto.
  intros H. apply andb_true_iff in H. destruct H as [Hc Ha]. now rewrite Hc, IH.
Qed.

Lemma rstrip_spaces (b : string) : forall_str is_space b = true -> rstrip b = "".
Proof.
  induction b as [|c b IH]; simpl; auto.
  intros H. apply andb_true_iff in H. destruct H as [Hc Hb]. now rewrite IH, Hc.
Qed.

Lemma rstrip_app_spaces (s b : string) :
  forall_str is_space b = true -> rstrip (s ++ b) = rstrip s.
Proof.
  intros Hb. induction s as [|c s IH]; simpl.
  - now apply rstrip_spaces.
  - now rewrite IH.
Qed.

Lemma strip_padded (a s b : string) :
  forall_str is_space a = true -> forall_str is_space b = true ->
  strip (a ++ s ++ b) = strip s.
Proof.
  intros Ha Hb. unfold strip.
  rewrite <- append_assoc, rstrip_app_spaces by exact Hb.
  rewrite <- rstrip_lstrip, lstrip_spaces_app by exact Ha.
  apply rstrip_lstrip.
Qed.

(** X14.  The directory lookup ignores the case of the identifier and the
    white space around it. *)
Theorem X14_lookup_ignores_case_and_padding :
  forall (m : Manager) (s : string),
    find_user_by_identifier m (lower s) = find_user_by_identifier m s
    /\ find_user_by_identifier m (strip s) = find_user_by_identifier m s
    /\ forall a b,
         forall_str is_space a = true -> forall_str is_space b = true ->
         find_user_by_identifier m (a ++ s ++ b) = find_user_by_identifier m s.
Proof.
  intros m s. unfold find_user_by_identifier. repeat split.
  - now rewrite strip_lower, lower_idem.
  - now rewrite strip_idem.
  - intros a b Ha Hb. now rewrite strip_padded.
Qed.

Lemma X14_witness :
  find_user_by_identifier bob_named_alm ("  " ++ "Bob" ++ " ")
  = find_user_by_identifier bob_named_alm "Bob".
Proof.
  apply (proj2 (proj2 (X14_lookup_ignores_case_and_padding bob_named_alm "Bob")));
    reflexivity.
Defined.

Lemma find_pointwise {A : Type} (f g : A -> bool) (l : list A) :
  (forall x, f x = g x) -> find f l = find g l.
Proof.
  intros H. induction l as [|x r IH]; simpl; auto. now rewrite H, IH.
Qed.

Lemma lower_empty (s : string) : (lower s =? "") = (s =? "").
Proof. now destruct s. Qed.

Lemma contains_empty (s : string) : contains "" s = true.
Proof. destruct s; reflexivity. Qed.

(** X15.  A blank identifier is not rejected.  When the empty string is not
    a key of the directory, the lookup returns the first user whose email is
    empty, or else the first whose full name is empty, or else the only user
    of a directory that has exactly one, since every name contains the empty
    string. *)
Theorem X15_lookup_of_a_blank_identifier :
  forall (m : Manager) (identifier : string),
    strip identifier = "" ->
    dict_get String.eqb "" (users m) = None ->
    find_user_by_identifier m identifier
    = match find (fun u => User.email u =? "") (dict_values (users m)) with
      | Some u => Some u
      | None =>
          match find (fun u => User.full_name u =? "") (dict_values (users m)) with
          | Some u => Some u
          | None =>
              match dict_values (users m) with
              | [u] => Some u
              | _ => None
              end
          end
      end.
Proof.
  intros m identifier Hs Hk. unfold find_user_by_identifier. rewrite Hs.
  change (lower "") with "". rewrite Hk.
  rewrite (find_pointwise (fun u => lower (User.email u) =? "")
                          (fun u => User.email u =? ""))
    by (intros u; apply lower_empty).
  rewrite (find_pointwise (fun u => lower (User.full_name u) =? "")
                          (fun u => User.full_name u =? ""))
    by (intros u; apply lower_empty).
  replace (filter _ (dict_values (users m))) with (dict_values (users m)); [reflexivity|].
  induction (dict_values (users m)) as [|u r IH]; simpl; auto.
  now rewrite contains_empty, <- IH.
Qed.

Lemma X15_witness :
  find_user_by_identifier (mkManager (directory ["ann"]) [] "" []) "   "
  = Some (user_of "ann").
Proof.
  rewrite (X15_lookup_of_a_blank_identifier _ "   "); reflexivity.
Defined.

(* ===================================================================== *)
(** ** Further properties: invariants of the mutation engine *)
(* ===================================================================== *)

Lemma add_cases (m : Manager) (user : User.t) (ltype atype : string) :
  (add_user_license m user ltype atype = (m, false)
   /\ table_get_default (lower (User.user_id user))
                        (build_combined_user_license_table m) <> [])
  \/ (snd (add_user_license m user ltype atype) = true
      /\ table_get_default (lower (User.user_id user))
                           (build_combined_user_license_table m) = []
      /\ entries_after_add m user ltype atype
         = (license_entries m
            ++ [mkEntry ltype atype (find_available_slot m ltype atype)
                        (User.user_id user) 0 true])%list
      /\ users (fst (add_user_license m user ltype atype)) = users m).
Proof.
  unfold entries_after_add, add_user_license.
  destruct (table_get_default _ _) eqn:T.
  - right. simpl. auto.
  - left. split; [reflexivity|discriminate].
Qed.

Lemma remove_cases (m : Manager) (uid ltype atype : string) :
  (remove_user_license m uid ltype atype = (m, false)
   /\ find (remove_match uid ltype atype) (license_entries m) = None)
  \/ (exists before t after,
        snd (remove_user_license m uid ltype atype) = true
        /\ find (remove_match uid ltype atype) (license_entries m) = Some t
        /\ license_entries m = (before ++ t :: after)%list
        /\ remove_match uid ltype atype t = true
        /\ (forall x, In x before -> remove_match uid ltype atype x = false)
        /\ entries_after_remove m uid ltype atype
           = (before ++ deactivate t :: after)%list
        /\ users (fst (remove_user_license m uid ltype atype)) = users m).
Proof.
  unfold entries_after_remove, remove_user_license.
  destruct (find _ (license_entries m)) as [t|] eqn:F.
  - right. destruct (find_split _ _ _ F) as (b & a & Hl & Hp & Hb & Hd).
    exists b, t, a. simpl. auto 10.
  - left. auto.
Qed.

Lemma switch_entries (m : Manager) (user : User.t)
    (old_ltype old_atype new_ltype new_atype : string) :
  entries_after_switch m user old_ltype old_atype new_ltype new_atype
  = if snd (remove_user_license m (User.user_id user) old_ltype old_atype)
    then entries_after_add
           (fst (remove_user_license m (User.user_id user) old_ltype old_atype))
           user new_ltype new_atype
    else license_entries m.
Proof.
  unfold entries_after_switch, entries_after_add, switch_user_license.
  destruct (remove_cases m (User.user_id user) old_ltype old_atype)
    as [[R _]|(b & t & a & R & _)].
  - now rewrite R.
  - destruct (remove_user_license m (User.user_id user) old_ltype old_atype)
      as [m1 ok1]. simpl in R. subst ok1. simpl.
    destruct (add_user_license m1 user new_ltype new_atype) as [m2 ok2].
    now destruct ok2.
Qed.

Lemma active_entries_of_deactivated (uid : string) (b a : list LicenseEntry)
    (t : LicenseEntry) :
  (List.length (active_entries_of uid (b ++ deactivate t :: a))
   <= List.length (active_entries_of uid (b ++ t :: a)))%nat.
Proof.
  unfold active_entries_of. rewrite !filter_app, !length_app. simpl.
  destruct (is_active t && _); simpl; lia.
Qed.

Lemma add_keeps_one_license (m : Manager) (user : User.t) (ltype atype : string) :
  one_license_per_user (license_entries m) ->
  dict_mem String.eqb (lower (User.user_id user)) (users m) = true ->
  one_license_per_user (entries_after_add m user ltype atype).
Proof.
  intros H M. destruct (add_cases m user ltype atype) as [[E _]|(_ & T & E & _)].
  - unfold entries_after_add. now rewrite E.
  - rewrite E. intros uid. unfold active_entries_of.
    rewrite filter_app, length_app. simpl.
    destruct (String.eqb_spec (lower (User.user_id user)) (lower uid)) as [Q|Q];
      simpl; [|specialize (H uid); unfold active_entries_of in H; lia].
    unfold table_get_default in T.
    rewrite (table_list_of_directory_user m _ (lower_idem _) M) in T.
    rewrite active_entries_of_lower in T. unfold active_entries_of in T.
    rewrite <- Q, T. simpl. lia.
Qed.

Lemma remove_keeps_one_license (m : Manager) (uid ltype atype : string) :
  one_license_per_user (license_entries m) ->
  one_license_per_user (entries_after_remove m uid ltype atype).
Proof.
  intros H. destruct (remove_cases m uid ltype atype)
    as [[E _]|(b & t & a & _ & _ & Hl & _ & _ & E & _)].
  - unfold entries_after_remove. now rewrite E.
  - rewrite E. intros u. specialize (H u). rewrite Hl in H.
    pose proof (active_entries_of_deactivated u b a t). lia.
Qed.

(** X16.  Invariant I1.  If no user has two active entries (user ids
    compared without case), this is still so after [remove], and after [add]
    and [switch] for a user whose lower-cased id is a key of the directory,
    whether the operation succeeds or fails. *)
Theorem X16_one_license_per_user_is_kept :
  forall m : Manager,
    one_license_per_user (license_entries m) ->
    (forall uid ltype atype,
        one_license_per_user (entries_after_remove m uid ltype atype))
    /\ (forall user ltype atype,
           dict_mem String.eqb (lower (User.user_id user)) (users m) = true ->
           one_license_per_user (entries_after_add m user ltype atype))
    /\ (forall user old_ltype old_atype new_ltype new_atype,
           dict_mem String.eqb (lower (User.user_id user)) (users m) = true ->
           one_license_per_user
             (entries_after_switch m user old_ltype old_atype new_ltype new_atype)).
Proof.
  intros m H. split; [|split].
  - intros. now apply remove_keeps_one_license.
  - intros. now apply add_keeps_one_license.
  - intros user olt oat nlt nat M. rewrite switch_entries.
    destruct (remove_cases m (User.user_id user) olt oat)
      as [[R _]|(b & t & a & R & _ & _ & _ & _ & _ & U)].
    + now rewrite R.
    + rewrite R. apply add_keeps_one_license.
      * now apply remove_keeps_one_license.
      * now rewrite U.
Qed.

Lemma slots_124_one_license : one_license_per_user (license_entries slots_124).
Proof.
  intros uid. unfold active_entries_of, slots_124, entry.
  cbn [license_entries filter is_active user_id andb].
  change (lower "ann") with "ann". change (lower "ben") with "ben".
  change (lower "cat") with "cat".
  destruct (String.eqb_spec "ann" (lower uid)) as [E1|_];
    destruct (String.eqb_spec "ben" (lower uid)) as [E2|_];
    destruct (String.eqb_spec "cat" (lower uid)) as [E3|_];
    cbn [List.length]; try lia; exfalso;
    match goal with
    | H1 : ?a = lower uid, H2 : ?b = lower uid |- _ =>
        rewrite <- H1 in H2; discriminate H2
    end.
Qed.

Lemma X16_witness :
  one_license_per_user
    (entries_after_switch slots_124 (user_of "ben") "ALM" "Named" "QA" "Concurrent").
Proof.
  apply (proj2 (proj2 (X16_one_license_per_user_is_kept slots_124
                         slots_124_one_license))).
  reflexivity.
Defined.

Lemma active_indices_app (ltype atype : string) (l l' : list LicenseEntry) :
  active_indices ltype atype (l ++ l')
  = (active_indices ltype atype l ++ active_indices ltype atype l')%list.
Proof. unfold active_indices. now rewrite filter_app, map_app. Qed.

Lemma active_indices_deactivated (ltype atype : string) (b a : list LicenseEntry)
    (t : LicenseEntry) :
  active_indices ltype atype (b ++ deactivate t :: a)
  = (active_indices ltype atype b ++ active_indices ltype atype a)%list.
Proof.
  rewrite active_indices_app. unfold active_indices at 2. simpl.
  unfold in_partition at 1. simpl. now rewrite andb_false_r.
Qed.

Lemma add_keeps_unique_slots (m : Manager) (user : User.t) (ltype atype : string) :
  unique_slots (license_entries m) ->
  unique_slots (entries_after_add m user ltype atype).
Proof.
  intros H. destruct (add_cases m user ltype atype) as [[E _]|(_ & _ & E & _)].
  - unfold entries_after_add. now rewrite E.
  - rewrite E. intros lt at'. rewrite active_indices_app.
    unfold active_indices at 2. simpl. unfold in_partition at 1. simpl.
    destruct (String.eqb_spec ltype lt) as [<-|_]; simpl;
      [|rewrite app_nil_r; apply H].
    destruct (String.eqb_spec atype at') as [<-|_]; simpl;
      [|rewrite app_nil_r; apply H].
    apply NoDup_app; [apply H|repeat constructor; intros []|].
    intros i Hi [<-|[]]. unfold active_indices in Hi. apply in_map_iff in Hi.
    destruct Hi as (e & He & Hin). apply filter_In in Hin. destruct Hin as [Hin Hp].
    pose proof (slot_above_active m ltype atype e Hin Hp). lia.
Qed.

Lemma remove_keeps_unique_slots (m : Manager) (uid ltype atype : string) :
  unique_slots (license_entries m) ->
  unique_slots (entries_after_remove m uid ltype atype).
Proof.
  intros H. destruct (remove_cases m uid ltype atype)
    as [[E _]|(b & t & a & _ & _ & Hl & _ & _ & E & _)].
  - unfold entries_after_remove. now rewrite E.
  - rewrite E. intros lt at'. rewrite active_indices_deactivated.
    specialize (H lt at'). rewrite Hl, active_indices_app in H.
    unfold active_indices at 2 in H. simpl in H.
    destruct (in_partition lt at' t); simpl in H.
    + now apply NoDup_remove_1 in H.
    + exact H.
Qed.

(** X17.  If in every partition the active entries have pairwise different
    slot indices, this is still so after [add], [remove] and [switch],
    whether they succeed or fail. *)
Theorem X17_slot_indices_stay_unique :
  forall m : Manager,
    unique_slots (license_entries m) ->
    (forall user ltype atype, unique_slots (entries_after_add m user ltype atype))
    /\ (forall uid ltype atype, unique_slots (entries_after_remove m uid ltype atype))
    /\ (forall user old_ltype old_atype new_ltype new_atype,
           unique_slots
             (entries_after_switch m user old_ltype old_atype new_ltype new_atype)).
Proof.
  intros m H. split; [|split].
  - intros. now apply add_keeps_unique_slots.
  - intros. now apply remove_keeps_unique_slots.
  - intros user olt oat nlt nat. rewrite switch_entries.
    destruct (snd (remove_user_license m (User.user_id user) olt oat)); [|exact H].
    apply add_keeps_unique_slots. now apply remove_keeps_unique_slots.
Qed.

Lemma slots_124_unique : unique_slots (license_entries slots_124).
Proof.
  intros lt at'. unfold active_indices, slots_124, entry, in_partition.
  cbn [license_entries filter license_type assignment_type is_active index map].
  destruct ("ALM" =? lt); destruct ("Named" =? at'); cbn;
    repeat constructor; simpl; intuition discriminate.
Qed.

Lemma X17_witness :
  unique_slots (entries_after_add slots_124 (user_of "eve") "ALM" "Named").
Proof.
  apply (proj1 (X17_slot_indices_stay_unique slots_124 slots_124_unique)).
Defined.

Lemma find_app_last {A : Type} (p : A -> bool) (l : list A) (x : A) :
  (forall y, In y l -> p y = false) -> p x = true ->
  find p (l ++ [x]) = Some x.
Proof.
  intros Hl Hx. induction l as [|y r IH]; simpl.
  - now rewrite Hx.
  - rewrite (Hl y (or_introl eq_refl)). apply IH. intros z Hz. apply Hl. now right.
Qed.

Lemma deactivate_first_app_last (p : LicenseEntry -> bool) (l : list LicenseEntry)
    (x : LicenseEntry) :
  (forall y, In y l -> p y = false) -> p x = true ->
  deactivate_first p (l ++ [x]) = (l ++ [deactivate x])%list.
Proof.
  intros Hl Hx. induction l as [|y r IH]; simpl.
  - now rewrite Hx.
  - rewrite (Hl y (or_introl eq_refl)). f_equal. apply IH.
    intros z Hz. apply Hl. now right.
Qed.

(** X18.  [add] followed by [remove] of the same license.  For a user of
    the directory, after a successful [add] the [remove] of that user,
    category and mode succeeds and deactivates the entry just added: the
    entry list is the old one followed by that entry, inactive, so the
    active entries are the old ones. *)
Theorem X18_remove_undoes_add :
  forall (m m1 : Manager) (user : User.t) (ltype atype : string),
    dict_mem String.eqb (lower (User.user_id user)) (users m) = true ->
    add_user_license m user ltype atype = (m1, true) ->
    exists m2 new_entry,
      remove_user_license m1 (User.user_id user) ltype atype = (m2, true)
      /\ license_entries m1 = (license_entries m ++ [new_entry])%list
      /\ license_entries m2 = (license_entries m ++ [deactivate new_entry])%list
      /\ filter is_active (license_entries m2) = filter is_active (license_entries m)
      /\ List.length (changes m2) = (List.length (changes m) + 2)%nat.
Proof.
  intros m m1 user ltype atype M Hadd.
  destruct (add_success _ _ _ _ _ Hadd) as (T & He & Hu & _).
  set (new_entry := mkEntry ltype atype (find_available_slot m ltype atype)
                            (User.user_id user) 0 true) in *.
  unfold table_get_default in T.
  rewrite (table_list_of_directory_user m _ (lower_idem _) M),
    active_entries_of_lower in T.
  assert (Hnone : forall y, In y (license_entries m) ->
                    remove_match (User.user_id user) ltype atype y = false).
  { intros y Hy. destruct (remove_match (User.user_id user) ltype atype y) eqn:R; auto.
    apply remove_match_spec in R. destruct R as (E & _ & _ & A).
    assert (Hin : In y (active_entries_of (User.user_id user) (license_entries m))).
    { apply filter_In. split; auto. rewrite A, E. apply String.eqb_refl. }
    rewrite T in Hin. destruct Hin. }
  assert (Hnew : remove_match (User.user_id user) ltype atype new_entry = true).
  { apply remove_match_spec. repeat split; reflexivity. }
  assert (F : find (remove_match (User.user_id user) ltype atype) (license_entries m1)
              = Some new_entry)
    by (rewrite He; now apply find_app_last).
  exists (fst (remove_user_license m1 (User.user_id user) ltype atype)), new_entry.
  unfold remove_user_license. rewrite F. simpl.
  rewrite He, deactivate_first_app_last by auto.
  repeat split; auto.
  - rewrite filter_app. simpl. apply app_nil_r.
  - unfold add_user_license in Hadd. destruct (table_get_default _ _); [|discriminate].
    injection Hadd as <-. simpl. rewrite !length_app. simpl. lia.
Qed.

Lemma X18_witness :
  exists m2 new_entry,
    remove_user_license slots_add_eve "eve" "ALM" "Named" = (m2, true)
    /\ license_entries slots_add_eve = (license_entries slots_124 ++ [new_entry])%list
    /\ license_entries m2 = (license_entries slots_124 ++ [deactivate new_entry])%list
    /\ filter is_active (license_entries m2) = filter is_active (license_entries slots_124)
    /\ List.length (changes m2) = (List.length (changes slots_124) + 2)%nat.
Proof.
  apply (X18_remove_undoes_add slots_124 slots_add_eve (user_of "eve") "ALM" "Named");
    reflexivity.
Defined.

Lemma in_deactivate_first (p : LicenseEntry -> bool) (l : list LicenseEntry)
    (x : LicenseEntry) :
  In x l -> p x = false -> In x (deactivate_first p l).
Proof.
  intros Hin Hp. induction l as [|y r IH]; simpl; [destruct Hin|].
  destruct (p y) eqn:E.
  - destruct Hin as [->|Hin]; [congruence|now right].
  - destruct Hin as [->|Hin]; [now left|right; auto].
Qed.

(** X19.  [switch] is not transactional.  When the user of the directory
    holds the license to switch from and another active license, the removal
    is done, the addition is refused, and [switch] returns failure with the
    old license inactive and a [remove] record in the log. *)
Theorem X19_failed_switch_keeps_the_removal :
  forall (m : Manager) (user : User.t)
         (old_ltype old_atype new_ltype new_atype : string)
         (target other : LicenseEntry),
    dict_mem String.eqb (lower (User.user_id user)) (users m) = true ->
    find (remove_match (User.user_id user) old_ltype old_atype) (license_entries m)
    = Some target ->
    In other (license_entries m) ->
    is_active other = true ->
    lower (user_id other) = lower (User.user_id user) ->
    remove_match (User.user_id user) old_ltype old_atype other = false ->
    exists m1 before after change,
      switch_user_license m user old_ltype old_atype new_ltype new_atype = (m1, false)
      /\ license_entries m = (before ++ target :: after)%list
      /\ license_entries m1 = (before ++ deactivate target :: after)%list
      /\ changes m1 = (changes m ++ [change])%list
      /\ LicenseChange.action change = "remove".
Proof.
  intros m user olt oat nlt nat target other M F Hin A E Hno.
  destruct (find_split _ _ _ F) as (b & a & Hl & _ & _ & Hd).
  unfold switch_user_license, remove_user_license. rewrite F. simpl.
  match goal with
  | |- context [add_user_license ?x user nlt nat] => set (m1 := x)
  end.
  assert (N : table_get_default (lower (User.user_id user))
                (build_combined_user_license_table m1) <> []).
  { unfold table_get_default.
    rewrite (table_list_of_directory_user m1 _ (lower_idem _) M),
      active_entries_of_lower.
    intros Hnil.
    assert (Ho : In other (active_entries_of (User.user_id user) (license_entries m1))).
    { apply filter_In. split.
      - simpl. now apply in_deactivate_first.
      - rewrite A, E. apply String.eqb_refl. }
    rewrite Hnil in Ho. destruct Ho. }
  destruct (add_cases m1 user nlt nat) as [[Ea _]|(_ & T & _)]; [|contradiction].
  rewrite Ea. simpl. exists m1, b, a. eexists.
  split; [reflexivity|]. split; [exact Hl|]. split; [exact Hd|].
  split; reflexivity.
Qed.

Lemma X19_witness :
  exists m1 before after change,
    switch_user_license ann_twice (user_of "ann") "ALM" "Named" "Pro" "Named"
    = (m1, false)
    /\ license_entries ann_twice
       = (before ++ entry "ALM" "Named" 1 "ann" :: after)%list
    /\ license_entries m1
       = (before ++ deactivate (entry "ALM" "Named" 1 "ann") :: after)%list
    /\ changes m1 = (changes ann_twice ++ [change])%list
    /\ LicenseChange.action change = "remove".
Proof.
  apply (X19_failed_switch_keeps_the_removal ann_twice (user_of "ann")
           "ALM" "Named" "Pro" "Named" (entry "ALM" "Named" 1 "ann")
           (entry "QA" "Concurrent" 1 "Ann")); try reflexivity.
  simpl. auto.
Defined.




(* ===================================================================== *)
(** ** Further properties: the serializer *)
(* ===================================================================== *)









(* ===================================================================== *)
(** ** Further properties: the identifier normaliser *)
(* ===================================================================== *)

Lemma split_ws_nonempty (s : string) : Forall (fun p => p <> "") (split_ws s).
Proof.
  induction s as [|c r IH]; simpl; [constructor|].
  destruct (is_space c); [exact IH|].
  destruct r as [|c' r']; [repeat constructor; discriminate|].
  destruct (is_space c').
  - constructor; [discriminate|exact IH].
  - destruct (split_ws (String c' r')) as [|h t].
    + repeat constructor; discriminate.
    + inversion IH; subst. constructor; [discriminate|assumption].
Qed.

Lemma Forall_snoc {A : Type} (P : A -> Prop) (l : list A) (x : A) :
  Forall P l -> P x -> Forall P (l ++ [x]).
Proof. intros Hl Hx. apply Forall_app. split; auto. Qed.

Lemma classify_ok (acc : Identifiers) (identifier : string) :
  identifier <> "" ->
  identifiers_ok acc ->
  identifiers_ok (classify acc identifier)
  /\ (S (identifier_count acc) <= identifier_count (classify acc identifier))%nat.
Proof.
  intros Hne (Hu & He & Hn). unfold classify, identifiers_ok, identifier_count.
  destruct (contains " " identifier && contains "@" identifier) eqn:C.
  - destruct (filter looks_like_email (split_ws identifier)) as [|pe pes] eqn:PE.
    + destruct (looks_like_email identifier) eqn:L; simpl;
        rewrite ?length_app; simpl; (split; [|lia]); repeat split; auto;
        apply Forall_snoc; auto.
    + destruct (filter (fun p => negb (contains "@" p)) (split_ws identifier))
        as [|pn pns] eqn:PN.
      * destruct (looks_like_email identifier) eqn:L; simpl;
          rewrite ?length_app; simpl; (split; [|lia]); repeat split; auto;
          apply Forall_snoc; auto.
      * remember (strip (join " " (pn :: pns))) as name eqn:Hname.
        cbn [user_ids full_names emails]. split.
        -- split; [exact Hu|]. split.
           ++ apply Forall_app. split; auto. rewrite <- PE.
              apply Forall_forall. intros p Hp. apply filter_In in Hp.
              destruct Hp as [Hp L]. split; auto.
              pose proof (split_ws_nonempty identifier) as W.
              rewrite Forall_forall in W. now apply W.
           ++ destruct (String.eqb_spec name ""); auto.
              apply Forall_snoc; auto.
        -- rewrite length_app. cbn [List.length].
           destruct (name =? ""); rewrite ?length_app; cbn [List.length]; lia.
  - destruct (looks_like_email identifier) eqn:L; simpl.
    + rewrite length_app. simpl. split; [|lia]. repeat split; auto.
      apply Forall_snoc; auto.
    + destruct (looks_like_user_id identifier) eqn:U; simpl;
        rewrite length_app; simpl; (split; [|lia]); repeat split; auto;
        apply Forall_snoc; auto.
Qed.

(** X22.  What the normaliser returns.  No string of its three lists is
    empty; every user id has no space, is alphanumeric once [.], [_] and [-]
    are removed, and is not an email; every email contains [@] and [.]; and
    each identifier of the input gives at least one string, so nothing is
    lost. *)
Theorem X22_normaliser_lists_are_well_formed :
  forall input_text : string,
    identifiers_ok (parse_mixed_identifiers input_text)
    /\ (List.length (identifiers_of input_text)
        <= identifier_count (parse_mixed_identifiers input_text))%nat.
Proof.
  intros input_text. unfold parse_mixed_identifiers.
  assert (Hne : Forall (fun s => s <> "") (identifiers_of input_text)).
  { unfold identifiers_of. apply Forall_forall. intros s Hs.
    apply filter_In in Hs. destruct Hs as [_ Hs]. apply negb_true_iff in Hs.
    now apply String.eqb_neq in Hs. }
  assert (G : forall ids acc,
             Forall (fun s => s <> "") ids -> identifiers_ok acc ->
             identifiers_ok (fold_left classify ids acc)
             /\ (List.length ids + identifier_count acc
                 <= identifier_count (fold_left classify ids acc))%nat).
  { induction ids as [|i r IH]; intros acc Hids Hacc; simpl; [auto|].
    inversion Hids as [|? ? Hi Hr]; subst.
    destruct (classify_ok acc i Hi Hacc) as [Hok Hc].
    destruct (IH _ Hr Hok) as [Hok' Hc']. split; auto. lia. }
  destruct (G (identifiers_of input_text) (mkIds [] [] []) Hne) as [Hok Hc].
  - repeat split; constructor.
  - split; auto. unfold identifier_count at 1 in Hc. simpl in Hc. lia.
Qed.





(* ===================================================================== *)
(** ** Further properties: the removal of the stale entries *)
(* ===================================================================== *)

Lemma find_app_skip {A : Type} (p : A -> bool) (pre l : list A) :
  (forall y, In y pre -> p y = false) -> find p (pre ++ l) = find p l.
Proof.
  intros H. induction pre as [|y r IH]; simpl; [reflexivity|].
  rewrite (H y (or_introl eq_refl)). apply IH. intros z Hz. apply H. now right.
Qed.

Lemma deactivate_first_app (p : LicenseEntry -> bool) (pre r : list LicenseEntry)
    (x : LicenseEntry) :
  (forall y, In y pre -> p y = false) -> p x = true ->
  deactivate_first p (pre ++ x :: r) = (pre ++ deactivate x :: r)%list.
Proof.
  intros Hl Hx. induction pre as [|y t IH]; simpl.
  - now rewrite Hx.
  - rewrite (Hl y (or_introl eq_refl)). f_equal. apply IH.
    intros z Hz. apply Hl. now right.
Qed.

Lemma stale_class (m : Manager) (e y : LicenseEntry) :
  is_stale m e = true ->
  remove_match (user_id e) (license_type e) (assignment_type e) y = true ->
  is_stale m y = true.
Proof.
  unfold is_stale, remove_match. intros He Hy.
  apply andb_true_iff in He. destruct He as [_ He].
  apply andb_true_iff in Hy. destruct Hy as [Hy Ha].
  apply andb_true_iff in Hy. destruct Hy as [Hy _].
  apply andb_true_iff in Hy. destruct Hy as [Hy _].
  apply String.eqb_eq in Hy. now rewrite Ha, Hy, He.
Qed.

Lemma remove_match_self (e : LicenseEntry) :
  is_active e = true ->
  remove_match (user_id e) (license_type e) (assignment_type e) e = true.
Proof. intros H. unfold remove_match. now rewrite !String.eqb_refl, H. Qed.

Lemma remove_stale_loop (m0 : Manager) (l : list LicenseEntry) :
  forall (pre : list LicenseEntry) (m : Manager),
    users m = users m0 ->
    license_entries m = (pre ++ l)%list ->
    (forall y, In y pre -> is_stale m0 y = false) ->
    let m' :=
      fold_left
        (fun (m : Manager) (entry : LicenseEntry) =>
           fst (remove_user_license m (user_id entry) (license_type entry)
                                    (assignment_type entry)))
        (filter (is_stale m0) l) m in
    users m' = users m0
    /\ license_config_text m' = license_config_text m
    /\ license_entries m'
       = (pre ++ map (fun e => if is_stale m0 e then deactivate e else e) l)%list
    /\ changes m' = (changes m ++ map removal_record (filter (is_stale m0) l))%list.
Proof.
  induction l as [|e r IH]; intros pre m Hu Hl Hpre.
  - simpl. rewrite app_nil_r in Hl. rewrite !app_nil_r. auto.
  - cbn [filter map]. destruct (is_stale m0 e) eqn:S.
    + cbn [fold_left].
      assert (Hact : is_active e = true).
      { unfold is_stale in S. now apply andb_true_iff in S. }
      assert (Hno : dict_get String.eqb (lower (user_id e)) (users m) = None).
      { unfold is_stale, dict_mem in S. rewrite Hu.
        destruct (dict_get String.eqb (lower (user_id e)) (users m0)); auto.
        now rewrite andb_false_r in S. }
      assert (Hp : forall y, In y pre ->
                 remove_match (user_id e) (license_type e) (assignment_type e) y
                 = false).
      { intros y Hy.
        destruct (remove_match (user_id e) (license_type e) (assignment_type e) y)
          eqn:M; auto.
        apply (stale_class m0 e y S) in M. rewrite (Hpre y Hy) in M. discriminate. }
      assert (R : remove_user_license m (user_id e) (license_type e)
                                      (assignment_type e)
                  = (mkManager (users m) (pre ++ deactivate e :: r)%list
                               (license_config_text m)
                               (changes m ++ [removal_record e])%list, true)).
      { unfold remove_user_license. rewrite Hl, find_app_skip by exact Hp.
        cbn [find]. rewrite (remove_match_self e Hact), Hno.
        rewrite deactivate_first_app by (auto using remove_match_self).
        reflexivity. }
      rewrite R. cbn [fst].
      destruct (IH (pre ++ [deactivate e])%list
                   (mkManager (users m) (pre ++ deactivate e :: r)%list
                              (license_config_text m)
                              (changes m ++ [removal_record e])%list))
        as (H1 & H2 & H3 & H4).
      * exact Hu.
      * cbn [license_entries]. now rewrite <- app_assoc.
      * intros y Hy. apply in_app_or in Hy. destruct Hy as [Hy|[<-|[]]]; auto.
      * split; [exact H1|]. split; [exact H2|].
        rewrite H3, H4. cbn [changes]. rewrite <- !app_assoc. split; reflexivity.
    + destruct (IH (pre ++ [e])%list m) as (H1 & H2 & H3 & H4).
      * exact Hu.
      * now rewrite <- app_assoc.
      * intros y Hy. apply in_app_or in Hy. destruct Hy as [Hy|[<-|[]]]; auto.
      * split; [exact H1|]. split; [exact H2|].
        rewrite H3, H4. rewrite <- !app_assoc. split; reflexivity.
Qed.

(** X24.  The removal of the stale entries (choice 2 of [main]).  The loop
    that removes the reported entries deactivates exactly the active entries
    whose user is not in the directory and leaves every other entry as it
    is, in place; it logs one [remove] record for each of them, in their
    order, with the user id as the user name; the directory and the text are
    unchanged; and afterwards no stale entry is reported. *)
Theorem X24_stale_entries_are_all_removed :
  forall m : Manager,
    let m' := remove_inactive_users m in
    users m' = users m
    /\ license_config_text m' = license_config_text m
    /\ license_entries m'
       = map (fun e => if is_stale m e then deactivate e else e) (license_entries m)
    /\ changes m'
       = (changes m ++ map removal_record (find_inactive_users_with_licenses m))%list
    /\ find_inactive_users_with_licenses m' = [].
Proof.
  intros m m'.
  destruct (remove_stale_loop m (license_entries m) [] m eq_refl eq_refl)
    as (H1 & H2 & H3 & H4).
  { intros y []. }
  fold (find_inactive_users_with_licenses m) in H1, H2, H3, H4.
  change (users m' = users m) in H1.
  change (license_config_text m' = license_config_text m) in H2.
  change (license_entries m'
          = map (fun e => if is_stale m e then deactivate e else e)
                (license_entries m)) in H3.
  change (changes m'
          = (changes m ++ map removal_record (find_inactive_users_with_licenses m))%list)
    in H4.
  repeat (split; [assumption|]).
  unfold find_inactive_users_with_licenses. rewrite H1, H3.
  fold (is_stale m). generalize (license_entries m).
  induction l as [|e r IH]; [reflexivity|].
  cbn [map filter]. destruct (is_stale m e) eqn:S.
  - unfold is_stale at 1. cbn [deactivate is_active andb]. exact IH.
  - rewrite S. exact IH.
Qed.

(* ===================================================================== *)
(** ** Further properties: the loading of the directory *)
(* ===================================================================== *)

Lemma get_set_cases {V : Type} (k k' : string) (v : V) (d : sdict V) :
  dict_get String.eqb k' (dict_set String.eqb k v d)
  = if k =? k' then Some v else dict_get String.eqb k' d.
Proof.
  destruct (String.eqb_spec k k') as [->|Hne].
  - apply get_set_same.
  - now apply get_set_other.
Qed.

Lemma dict_set_length {V : Type} (k : string) (v : V) (d : sdict V) :
  (List.length (dict_set String.eqb k v d) <= S (List.length d))%nat.
Proof.
  induction d as [|[a b] r IH]; simpl; [lia|].
  destruct (a =? k); simpl; lia.
Qed.

Lemma index_loop (rows : list User.t) :
  forall (d : sdict User.t) (seen : list User.t),
    NoDup (dict_keys d) ->
    (forall k u, dict_get String.eqb k d = Some u ->
                 k = lower (User.user_id u) /\ In u seen) ->
    (List.length d <= List.length seen)%nat ->
    let d' :=
      fold_left (fun d user =>
                   dict_set String.eqb (lower (User.user_id user)) user d)
                rows d in
    NoDup (dict_keys d')
    /\ (forall k u, dict_get String.eqb k d' = Some u ->
                    k = lower (User.user_id u) /\ In u (seen ++ rows)%list)
    /\ (List.length d' <= List.length (seen ++ rows)%list)%nat.
Proof.
  induction rows as [|x r IH]; intros d seen Hnd Hk Hlen.
  - simpl. rewrite app_nil_r. auto.
  - cbn [fold_left].
    replace (seen ++ x :: r)%list with ((seen ++ [x]) ++ r)%list
      by (rewrite <- app_assoc; reflexivity).
    apply IH.
    + now apply dict_set_nodup.
    + intros k u. rewrite get_set_cases.
      destruct (String.eqb_spec (lower (User.user_id x)) k) as [<-|Hne].
      * intros [= <-]. split; auto. apply in_or_app. right. now left.
      * intros H. apply Hk in H. destruct H as [H1 H2]. split; auto.
        apply in_or_app. now left.
    + rewrite length_app. simpl.
      pose proof (dict_set_length (lower (User.user_id x)) x d). lia.
Qed.

Lemma index_loop_keeps (k : string) (rows : list User.t) :
  forall d : sdict User.t,
    (forall v, In v rows -> lower (User.user_id v) <> k) ->
    dict_get String.eqb k
      (fold_left (fun d user =>
                    dict_set String.eqb (lower (User.user_id user)) user d)
                 rows d)
    = dict_get String.eqb k d.
Proof.
  induction rows as [|x r IH]; intros d H; [reflexivity|].
  cbn [fold_left]. rewrite IH by (intros v Hv; apply H; now right).
  apply get_set_other. apply H. now left.
Qed.

Lemma index_loop_has (rows : list User.t) :
  forall (d : sdict User.t) (u : User.t),
    In u rows ->
    exists u',
      dict_get String.eqb (lower (User.user_id u))
        (fold_left (fun d user =>
                      dict_set String.eqb (lower (User.user_id user)) user d)
                   rows d)
      = Some u'.
Proof.
  induction rows as [|x r IH]; intros d u Hin; [destruct Hin|].
  cbn [fold_left].
  destruct (existsb (fun v => lower (User.user_id v) =? lower (User.user_id u)) r)
    eqn:E.
  - apply existsb_exists in E. destruct E as (v & Hv & E).
    apply String.eqb_eq in E. rewrite <- E. now apply IH.
  - assert (Hr : forall v, In v r ->
                 lower (User.user_id v) <> lower (User.user_id u)).
    { intros v Hv Heq.
      assert (existsb (fun v => lower (User.user_id v) =? lower (User.user_id u)) r
              = true).
      { apply existsb_exists. exists v. split; auto. now apply String.eqb_eq. }
      congruence. }
    destruct Hin as [->|Hin]; [|now destruct (Hr u Hin)].
    exists u. rewrite index_loop_keeps by exact Hr. apply get_set_same.
Qed.

(** X25.  The directory after loading.  The loop that files the users built
    from the rows gives a dictionary without repeated keys, in which every
    value is one of the rows and stands under its own user id, lower-cased;
    of the rows whose user ids are equal without case the last one is the
    one that is kept, so there are at most as many users as rows. *)
Theorem X25_loaded_directory_is_keyed_by_lowered_id :
  forall rows : list User.t,
    NoDup (dict_keys (index_users rows))
    /\ (forall k u, dict_get String.eqb k (index_users rows) = Some u ->
                    k = lower (User.user_id u) /\ In u rows)
    /\ (forall before u after,
          rows = (before ++ u :: after)%list ->
          (forall v, In v after ->
                     lower (User.user_id v) <> lower (User.user_id u)) ->
          dict_get String.eqb (lower (User.user_id u)) (index_users rows) = Some u)
    /\ (List.length (index_users rows) <= List.length rows)%nat.
Proof.
  intros rows. unfold index_users.
  destruct (index_loop rows [] []) as (H1 & H2 & H3).
  { constructor. }
  { intros k u H. discriminate H. }
  { simpl. lia. }
  simpl in H2, H3. split; [exact H1|]. split; [exact H2|]. split; [|exact H3].
  intros before u after -> Hafter. rewrite fold_left_app. cbn [fold_left].
  rewrite index_loop_keeps by exact Hafter. apply get_set_same.
Qed.

(** X26.  Loading, then lookup.  When the directory of the manager was
    loaded from rows, a user of the rows whose user id has no white space
    around it is found by that user id; the user returned is a row with the
    same user id up to case. *)
Theorem X26_loaded_user_is_found_by_id :
  forall (m : Manager) (rows : list User.t) (u : User.t),
    users m = index_users rows ->
    In u rows ->
    strip (User.user_id u) = User.user_id u ->
    exists u',
      find_user_by_identifier m (User.user_id u) = Some u'
      /\ In u' rows
      /\ lower (User.user_id u') = lower (User.user_id u).
Proof.
  intros m rows u Hm Hin Hs. unfold find_user_by_identifier.
  rewrite Hs, Hm. unfold index_users.
  destruct (index_loop_has rows [] u Hin) as [u' G].
  rewrite G. exists u'. split; [reflexivity|].
  destruct (index_loop rows [] []) as (_ & H2 & _).
  { constructor. }
  { intros k v H. discriminate H. }
  { simpl. lia. }
  apply H2 in G. simpl in G. destruct G as [G1 G2]. auto.
Qed.

Lemma X26_witness :
  exists u',
    find_user_by_identifier
      (mkManager (index_users [user_of "Ann"; user_of "ANN"]) [] "" [])
      "Ann" = Some u'
    /\ In u' [user_of "Ann"; user_of "ANN"]
    /\ lower (User.user_id u') = lower "Ann".
Proof.
  apply (X26_loaded_user_is_found_by_id
           (mkManager (index_users [user_of "Ann"; user_of "ANN"]) [] "" [])
           [user_of "Ann"; user_of "ANN"] (user_of "Ann")).
  - reflexivity.
  - now left.
  - reflexivity.
Defined.
